(** * Folder monitor: a shallow embedding of [src/folder_monitor.py]

    The development follows the Python module function by function.

    - Python integers are [Z]; file sizes reported by the file system are [N].
    - Python floats are IEEE binary64 values, kept as exact dyadic numbers
      [m * 2^e]; every float operation is the exact result rounded to the
      nearest representable value, ties to even (module [PyFloat]).
    - An exception is a value of [exn]; a call that may raise returns a
      [result].
    - The file system is read through four primitives ([os.path.exists],
      [os.path.isdir], [os.walk], [os.path.getsize]) that are parameters of
      the development, as is the wall clock.
    - The monitor object is a record that every method threads explicitly,
      together with the lines printed so far.  The dictionary
      [monitoring_config] is an association list in insertion order, as
      Python dictionaries iterate.
    - [add_folder_interactive] of [src/main.py], the caller that validates
      the limit typed by the user, is embedded next to the engine.
    - The other callers of [src/main.py] that act on the monitor, and the
      polling loop [monitor_continuously], follow the engine.  What the user
      types is an argument of the caller, as [get_user_input] returns it;
      [int], [os.path.expanduser] and [time.sleep] are parameters.  The
      loop is bounded by a number of passes. *)

From Stdlib Require Import ZArith NArith List String Ascii Bool Lia.
From Stdlib Require Import DecimalString.
From Stdlib Require Import Floats.SpecFloat.
Import ListNotations.

Local Open Scope string_scope.
Local Open Scope Z_scope.

(** ** Exceptions *)

Inductive exn : Type :=
| OSError (msg : string)
| OverflowError (msg : string)
| ZeroDivisionError (msg : string).

Inductive result (A : Type) : Type :=
| Ok (a : A)
| Raise (e : exn).

Arguments Ok {A} a.
Arguments Raise {A} e.

Definition bind {A B : Type} (r : result A) (k : A -> result B) : result B :=
  match r with
  | Ok a => k a
  | Raise e => Raise e
  end.

Notation "x <- r ;; k" := (bind r (fun x => k))
  (at level 100, r at next level, right associativity).

(** [str(e)] of an exception built from one message argument. *)
Definition str_exn (e : exn) : string :=
  match e with
  | OSError msg | OverflowError msg | ZeroDivisionError msg => msg
  end.

(** ** Decimal rendering of integers *)

Definition str_nat (n : N) : string := NilZero.string_of_uint (N.to_uint n).

Definition str_int (n : Z) : string :=
  if n <? 0 then "-" ++ str_nat (Z.to_N (- n)) else str_nat (Z.to_N n).

(** ** Python floats *)

Module PyFloat.

(** A finite value [Fin m e] stands for [m * 2^e].  The sign of zero is not
    tracked: the monitor never produces a negative zero. *)
Inductive float : Type :=
| Fin (m e : Z)
| Inf (negative : bool)
| NaN.

(** Nearest integer to [p / q] for [0 < q], ties to the even neighbour. *)
Definition round_half_even (p q : Z) : Z :=
  let d := p / q in
  let r := p mod q in
  match 2 * r ?= q with
  | Lt => d
  | Gt => d + 1
  | Eq => if Z.even d then d else d + 1
  end.

(** [floor (log2 (a / b))] for [0 < a] and [0 < b]. *)
Definition ilog2_ratio (a b : Z) : Z :=
  let k := Z.log2 a - Z.log2 b in
  let below := if 0 <=? k then a <? b * 2 ^ k else a * 2 ^ (- k) <? b in
  if below then k - 1 else k.

(** The binary64 value nearest to [a / b], for [0 < b]: 53 significant
    bits, least exponent -1074, overflow to infinity from [2^1024]. *)
Definition round_ratio (a b : Z) : float :=
  if a =? 0 then Fin 0 0
  else
    let k := ilog2_ratio (Z.abs a) b in
    let e := Z.max (k - 52) (-1074) in
    let m := if 0 <=? e then round_half_even a (b * 2 ^ e)
             else round_half_even (a * 2 ^ (- e)) b in
    if (0 <=? e) && (2 ^ 1024 <=? Z.abs m * 2 ^ e) then Inf (a <? 0)
    else Fin m e.

(** [float(n)] for an integer [n]. *)
Definition of_int (n : Z) : result float :=
  match round_ratio n 1 with
  | Inf _ => Raise (OverflowError "int too large to convert to float")
  | x => Ok x
  end.

(** [a / b] for two integers. *)
Definition truediv (a b : Z) : result float :=
  if b =? 0 then Raise (ZeroDivisionError "division by zero")
  else
    match round_ratio (a * Z.sgn b) (Z.abs b) with
    | Inf _ =>
        Raise (OverflowError "integer division result too large for a float")
    | x => Ok x
    end.

(** [x / y] for two floats. *)
Definition fdiv (x y : float) : result float :=
  match x, y with
  | NaN, _ | _, NaN => Ok NaN
  | Inf _, Inf _ => Ok NaN
  | Fin _ _, Inf _ => Ok (Fin 0 0)
  | Inf s, Fin m2 _ =>
      if m2 =? 0 then Raise (ZeroDivisionError "float division by zero")
      else Ok (Inf (xorb s (m2 <? 0)))
  | Fin m1 e1, Fin m2 e2 =>
      if m2 =? 0 then Raise (ZeroDivisionError "float division by zero")
      else
        let a := m1 * Z.sgn m2 in
        let b := Z.abs m2 in
        Ok (if e2 <=? e1 then round_ratio (a * 2 ^ (e1 - e2)) b
            else round_ratio a (b * 2 ^ (e2 - e1)))
  end.

(** [x * y] for two floats. *)
Definition fmul (x y : float) : float :=
  match x, y with
  | NaN, _ | _, NaN => NaN
  | Inf s, Inf t => Inf (xorb s t)
  | Inf s, Fin m _ | Fin m _, Inf s =>
      if m =? 0 then NaN else Inf (xorb s (m <? 0))
  | Fin m1 e1, Fin m2 e2 =>
      let e := e1 + e2 in
      if 0 <=? e then round_ratio (m1 * m2 * 2 ^ e) 1
      else round_ratio (m1 * m2) (2 ^ (- e))
  end.

(** [x < y] for two floats. *)
Definition flt (x y : float) : bool :=
  match x, y with
  | NaN, _ | _, NaN => false
  | Inf s, Inf t => s && negb t
  | Inf s, Fin _ _ => s
  | Fin _ _, Inf t => negb t
  | Fin m1 e1, Fin m2 e2 =>
      let e := Z.min e1 e2 in
      m1 * 2 ^ (e1 - e) <? m2 * 2 ^ (e2 - e)
  end.

(** [n < y] for an integer and a float: Python compares the two exactly,
    without converting the integer. *)
Definition int_lt (n : Z) (y : float) : bool := flt (Fin n 0) y.

(** The value times one hundred, rounded to an integer, ties to even. *)
Definition hundredths (m e : Z) : Z :=
  if 0 <=? e then 100 * m * 2 ^ e
  else round_half_even (100 * m) (2 ^ (- e)).

Definition two_digits (n : Z) : string :=
  if n <? 10 then "0" ++ str_int n else str_int n.

(** The digits of a magnitude given in hundredths: [150] is ["1.50"]. *)
Definition fixed2 (h : Z) : string :=
  str_int (h / 100) ++ "." ++ two_digits (h mod 100).

(** [format(x, ".2f")]. *)
Definition format_2f (x : float) : string :=
  match x with
  | Fin m e =>
      (if m <? 0 then "-" else "") ++ fixed2 (Z.abs (hundredths m e))
  | Inf false => "inf"
  | Inf true => "-inf"
  | NaN => "nan"
  end.

(** The literals [1024.0] and [100] (converted to a float). *)
Definition f1024 : float := Fin 1024 0.
Definition f100 : float := Fin 100 0.

End PyFloat.

Import PyFloat.

(** ** [FolderMonitor.format_size] *)

(** [size_bytes] is an [int] on entry and a [float] after the first division. *)
Inductive number : Type :=
| Int (n : Z)
| Float (x : float).

Definition lt_1024 (v : number) : bool :=
  match v with
  | Int n => int_lt n f1024
  | Float x => flt x f1024
  end.

(** [f"{v:.2f}"]: an integer is converted to a float before it is printed. *)
Definition fmt_2f (v : number) : result string :=
  match v with
  | Int n => x <- of_int n ;; Ok (format_2f x)
  | Float x => Ok (format_2f x)
  end.

(** [v / 1024.0]. *)
Definition div_1024 (v : number) : result float :=
  match v with
  | Int n => x <- of_int n ;; fdiv x f1024
  | Float x => fdiv x f1024
  end.

Fixpoint format_size_loop (units : list string) (size_bytes : number)
  : result string :=
  match units with
  | [] => s <- fmt_2f size_bytes ;; Ok (s ++ " PB")
  | unit :: rest =>
      if lt_1024 size_bytes
      then s <- fmt_2f size_bytes ;; Ok (s ++ " " ++ unit)
      else x <- div_1024 size_bytes ;; format_size_loop rest (Float x)
  end.

Definition format_size (size_bytes : Z) : result string :=
  format_size_loop ["B"; "KB"; "MB"; "GB"; "TB"] (Int size_bytes).

(** ** The file system *)

(** A directory as [os.walk] traverses it: the names of its entries that are
    not directories, and its sub-directories with their own content. *)
#[local] Set Warnings "-register-all".
Inductive dir : Type :=
| Dir (filenames : list string) (subdirs : list (string * dir)).

(** What the monitor reads from the operating system.  A name listed in a
    directory may be gone, or unreadable, by the time it is measured:
    [os_path_exists] and [os_path_getsize] are independent of [os_listing]. *)
Record filesystem : Type := {
  os_path_exists : string -> bool;
  os_path_isdir : string -> bool;
  (** the tree [os.walk] traverses from a directory path *)
  os_listing : string -> dir;
  (** [os.path.getsize]; [None] when it raises [OSError] *)
  os_path_getsize : string -> option N
}.

Definition starts_with_sep (s : string) : bool :=
  match s with
  | String c _ => Ascii.eqb c "/"
  | EmptyString => false
  end.

Fixpoint ends_with_sep (s : string) : bool :=
  match s with
  | EmptyString => false
  | String c EmptyString => Ascii.eqb c "/"
  | String _ rest => ends_with_sep rest
  end.

(** [os.path.join(a, b)] (POSIX). *)
Definition os_path_join (a b : string) : string :=
  if starts_with_sep b then b
  else if String.eqb a "" || ends_with_sep a then a ++ b
  else a ++ "/" ++ b.

(** [os.walk(top)], top-down: one triple [(dirpath, dirnames, filenames)] per
    directory of the tree. *)
Fixpoint os_walk (top : string) (d : dir)
  : list (string * list string * list string) :=
  match d with
  | Dir filenames subdirs =>
      (top, map fst subdirs, filenames)
      :: (fix walk_subdirs (l : list (string * dir)) :=
            match l with
            | [] => []
            | (name, sub) :: rest =>
                (os_walk (os_path_join top name) sub ++ walk_subdirs rest)%list
            end) subdirs
  end.

(** ** The monitor object *)

Definition dict : Type := list (string * Z).

Fixpoint dict_get (d : dict) (k : string) : option Z :=
  match d with
  | [] => None
  | (k', v) :: rest => if String.eqb k' k then Some v else dict_get rest k
  end.

Definition dict_contains (d : dict) (k : string) : bool :=
  match dict_get d k with
  | Some _ => true
  | None => false
  end.

(** [d[k] = v]: an existing key keeps its place, a new key goes last. *)
Fixpoint dict_set (d : dict) (k : string) (v : Z) : dict :=
  match d with
  | [] => [(k, v)]
  | (k', v') :: rest =>
      if String.eqb k' k then (k', v) :: rest
      else (k', v') :: dict_set rest k v
  end.

(** [del d[k]]. *)
Fixpoint dict_del (d : dict) (k : string) : dict :=
  match d with
  | [] => []
  | (k', v') :: rest =>
      if String.eqb k' k then rest else (k', v') :: dict_del rest k
  end.

Record Violation : Type := {
  folder_path : string;
  current_size : Z;
  size_limit : Z;
  current_size_formatted : string;
  size_limit_formatted : string;
  excess_size : Z;
  excess_size_formatted : string
}.

Inductive folder_info : Type :=
| FolderInfo (path : string) (current_size : Z)
             (current_size_formatted : string) (size_limit : Z)
             (size_limit_formatted : string) (usage_percentage : number)
             (is_over_limit : bool)
| FolderError (path : string) (error : string).

Record Status : Type := {
  total_folders_monitored : Z;
  folders : list folder_info;
  total_alerts_triggered : Z
}.

Record Alert : Type := {
  timestamp : float;
  violation : Violation;
  message : string
}.

(** The wall clock: what the [n]-th read of the clock returns. *)
Record wallclock : Type := {
  time_strftime : nat -> string;
  time_time : nat -> float
}.

(** [self], together with what the process has printed and how many times
    it has read the clock. *)
Record state : Type := {
  monitoring_config : dict;
  alerts_triggered : list Alert;
  stdout : list string;
  clock_reads : nat
}.

(** [FolderMonitor(monitoring_config)]: [monitoring_config or {}]. *)
Definition init (monitoring_config : option dict) : state :=
  {| monitoring_config := match monitoring_config with
                          | Some d => d
                          | None => []
                          end;
     alerts_triggered := [];
     stdout := [];
     clock_reads := 0 |}.

Definition print (line : string) (st : state) : state :=
  {| monitoring_config := monitoring_config st;
     alerts_triggered := alerts_triggered st;
     stdout := (stdout st ++ [line])%list;
     clock_reads := clock_reads st |}.

Definition tick (st : state) : state :=
  {| monitoring_config := monitoring_config st;
     alerts_triggered := alerts_triggered st;
     stdout := stdout st;
     clock_reads := S (clock_reads st) |}.

Definition append_alert (a : Alert) (st : state) : state :=
  {| monitoring_config := monitoring_config st;
     alerts_triggered := (alerts_triggered st ++ [a])%list;
     stdout := stdout st;
     clock_reads := clock_reads st |}.

Definition set_config (d : dict) (st : state) : state :=
  {| monitoring_config := d;
     alerts_triggered := alerts_triggered st;
     stdout := stdout st;
     clock_reads := clock_reads st |}.

Definition nl : string := String (ascii_of_nat 10) EmptyString.

Fixpoint str_repeat (s : string) (n : nat) : string :=
  match n with
  | O => ""
  | S n' => s ++ str_repeat s n'
  end.

Section Monitor.

Variable fs : filesystem.
Variable clock : wallclock.

(** *** [add_folder_to_monitor] *)
Definition add_folder_to_monitor (folder_path : string) (size_limit_mb : Z)
           (st : state) : bool * state :=
  if negb (os_path_exists fs folder_path) then
    (false, print ("Warning: Folder '" ++ folder_path ++ "' does not exist.") st)
  else if negb (os_path_isdir fs folder_path) then
    (false, print ("Warning: '" ++ folder_path ++ "' is not a directory.") st)
  else
    let size_limit_bytes := size_limit_mb * 1024 * 1024 in
    let st := set_config
                (dict_set (monitoring_config st) folder_path size_limit_bytes)
                st in
    (true, print ("Added folder '" ++ folder_path
                  ++ "' to monitoring with limit "
                  ++ str_int size_limit_mb ++ " MB") st).

(** *** [remove_folder_from_monitor] *)
Definition remove_folder_from_monitor (folder_path : string) (st : state)
  : bool * state :=
  if dict_contains (monitoring_config st) folder_path then
    let st := set_config (dict_del (monitoring_config st) folder_path) st in
    (true, print ("Removed folder '" ++ folder_path ++ "' from monitoring") st)
  else
    (false, print ("Folder '" ++ folder_path ++ "' is not being monitored") st).

(** *** [get_folder_size] *)

(** The body of the inner loop: a file that is gone, or whose size cannot
    be read, leaves the total as it is. *)
Definition add_file_size (dirpath : string) (total_size : Z)
           (filename : string) : Z :=
  let file_path := os_path_join dirpath filename in
  if os_path_exists fs file_path then
    match os_path_getsize fs file_path with
    | Some size => total_size + Z.of_N size
    | None => total_size
    end
  else total_size.

Definition get_folder_size (folder_path : string) : result Z :=
  if negb (os_path_exists fs folder_path) then
    Raise (OSError ("Folder '" ++ folder_path ++ "' does not exist."))
  else if negb (os_path_isdir fs folder_path) then
    Raise (OSError ("'" ++ folder_path ++ "' is not a directory."))
  else
    Ok (fold_left
          (fun total_size '(dirpath, dirnames, filenames) =>
             fold_left (add_file_size dirpath) filenames total_size)
          (os_walk folder_path (os_listing fs folder_path))
          0).

(** *** [check_folder_limits] *)

(** The body of the [try] block for one entry of the watch-list. *)
Definition check_entry (folder_path : string) (size_limit : Z)
  : result (option Violation) :=
  current_size <- get_folder_size folder_path ;;
  if current_size >? size_limit then
    current_size_formatted <- format_size current_size ;;
    size_limit_formatted <- format_size size_limit ;;
    excess_size_formatted <- format_size (current_size - size_limit) ;;
    Ok (Some {| folder_path := folder_path;
                current_size := current_size;
                size_limit := size_limit;
                current_size_formatted := current_size_formatted;
                size_limit_formatted := size_limit_formatted;
                excess_size := current_size - size_limit;
                excess_size_formatted := excess_size_formatted |})
  else Ok None.

(** The [for] loop; only [OSError] is caught. *)
Fixpoint check_folder_limits_loop (items : dict)
         (violations : list Violation) (st : state)
  : result (list Violation) * state :=
  match items with
  | [] => (Ok violations, st)
  | (folder_path, size_limit) :: rest =>
      match check_entry folder_path size_limit with
      | Ok (Some violation) =>
          check_folder_limits_loop rest (violations ++ [violation])%list st
      | Ok None => check_folder_limits_loop rest violations st
      | Raise (OSError e) =>
          check_folder_limits_loop rest violations
            (print ("Error checking folder '" ++ folder_path ++ "': " ++ e) st)
      | Raise e => (Raise e, st)
      end
  end.

Definition check_folder_limits (st : state)
  : result (list Violation) * state :=
  check_folder_limits_loop (monitoring_config st) [] st.

(** *** [trigger_alert] *)
Definition trigger_alert (violation : Violation) (st : state) : state :=
  let alert_message :=
    "🚨 FOLDER SIZE ALERT 🚨" ++ nl
    ++ "Folder: " ++ folder_path violation ++ nl
    ++ "Current Size: " ++ current_size_formatted violation ++ nl
    ++ "Size Limit: " ++ size_limit_formatted violation ++ nl
    ++ "Excess: " ++ excess_size_formatted violation ++ nl
    ++ "Time: " ++ time_strftime clock (clock_reads st) ++ nl
    ++ str_repeat "-" 50 in
  let st := print alert_message (tick st) in
  tick (append_alert {| timestamp := time_time clock (clock_reads st);
                        violation := violation;
                        message := alert_message |} st).

(** *** [monitor_once] *)
Definition monitor_once (st : state) : result bool * state :=
  match monitoring_config st with
  | [] => (Ok false, print "No folders configured for monitoring." st)
  | _ :: _ =>
      match check_folder_limits st with
      | (Raise e, st) => (Raise e, st)
      | (Ok [], st) =>
          (Ok false,
           print "All monitored folders are within their size limits." st)
      | (Ok violations, st) =>
          let st := print ("Found "
                           ++ str_int (Z.of_nat (List.length violations))
                           ++ " folder size violation(s):") st in
          (Ok true,
           fold_left (fun st violation => trigger_alert violation st)
                     violations st)
      end
  end.

(** *** [get_monitoring_status] *)

(** The body of the [try] block for one entry of the watch-list. *)
Definition folder_status (folder_path : string) (size_limit : Z)
  : result folder_info :=
  current_size <- get_folder_size folder_path ;;
  current_size_formatted <- format_size current_size ;;
  size_limit_formatted <- format_size size_limit ;;
  usage_percentage <-
    (if size_limit >? 0
     then q <- truediv current_size size_limit ;; Ok (Float (fmul q f100))
     else Ok (Int 0)) ;;
  Ok (FolderInfo folder_path current_size current_size_formatted
                 size_limit size_limit_formatted usage_percentage
                 (current_size >? size_limit)).

Fixpoint get_monitoring_status_loop (items : dict)
         (folders : list folder_info) : result (list folder_info) :=
  match items with
  | [] => Ok folders
  | (folder_path, size_limit) :: rest =>
      match folder_status folder_path size_limit with
      | Ok folder_info =>
          get_monitoring_status_loop rest (folders ++ [folder_info])%list
      | Raise (OSError e) =>
          get_monitoring_status_loop rest
            (folders ++ [FolderError folder_path e])%list
      | Raise e => Raise e
      end
  end.

Definition get_monitoring_status (st : state) : result Status * state :=
  (folders <- get_monitoring_status_loop (monitoring_config st) [] ;;
   Ok {| total_folders_monitored :=
           Z.of_nat (List.length (monitoring_config st));
         folders := folders;
         total_alerts_triggered :=
           Z.of_nat (List.length (alerts_triggered st)) |},
   st).

(** *** The public operations, as the callers of the engine issue them *)
Inductive operation : Type :=
| OpRegister (folder_path : string) (limit_mb : Z)
| OpUnregister (folder_path : string)
| OpMeasure (folder_path : string)
| OpEvaluate
| OpCheckOnce
| OpRaiseAlert (violation : Violation)
| OpStatus.

(** The state an operation leaves behind, whether it returns or raises. *)
Definition run (op : operation) (st : state) : state :=
  match op with
  | OpRegister folder_path limit_mb =>
      snd (add_folder_to_monitor folder_path limit_mb st)
  | OpUnregister folder_path => snd (remove_folder_from_monitor folder_path st)
  | OpMeasure folder_path =>
      match get_folder_size folder_path with
      | Ok _ | Raise _ => st
      end
  | OpEvaluate => snd (check_folder_limits st)
  | OpCheckOnce => snd (monitor_once st)
  | OpRaiseAlert violation => trigger_alert violation st
  | OpStatus => snd (get_monitoring_status st)
  end.

(** *** [Main.add_folder_interactive] ([src/main.py]) *)

(** [os.path.expanduser] and [int(...)] on a string ([None] when it raises
    [ValueError]). *)
Variable os_path_expanduser : string -> string.
Variable int_of_str : string -> option Z.

(** [path_input] and [limit_input] are what [get_user_input] returns for
    the two prompts. *)
Definition add_folder_interactive (path_input limit_input : string)
           (st : state) : state :=
  let st := print (nl ++ "📂 Add Folder to Monitor") st in
  let st := print (str_repeat "-" 30) st in
  if String.eqb path_input "" then st
  else
    let folder_path := os_path_expanduser path_input in
    if String.eqb limit_input "" then st
    else
      match int_of_str limit_input with
      | None => print "Error: Please enter a valid number for size limit." st
      | Some size_limit_mb =>
          if size_limit_mb <=? 0 then
            print "Error: Size limit must be a positive number." st
          else
            let (success, st) :=
              add_folder_to_monitor folder_path size_limit_mb st in
            if success then print "✅ Folder added successfully!" st
            else print "❌ Failed to add folder." st
      end.

End Monitor.

(** ** The callers of the engine ([src/main.py]) and the polling loop *)

(** [enumerate(l, start)]. *)
Fixpoint enumerate_from {A : Type} (start : Z) (l : list A) : list (Z * A) :=
  match l with
  | [] => []
  | a :: rest => (start, a) :: enumerate_from (start + 1) rest
  end.

(** What one call of [time.sleep] does: it returns, it is interrupted by the
    operator ([KeyboardInterrupt]), or it raises another exception. *)
Inductive sleep_outcome : Type :=
| Slept
| KeyboardInterrupt
| SleepFailed.

(** How [monitor_continuously] ends: on the operator's interrupt, which it
    catches, or on an exception it lets through, raised by a check or by
    [time.sleep]. *)
Inductive loop_exit : Type :=
| StoppedByUser
| Propagated (e : exn)
| SleepError.

Inductive setup_exit : Type :=
| NotStarted
| Monitored (e : loop_exit).

Section Callers.

Variable fs : filesystem.
Variable clock : wallclock.

(** [os.path.expanduser], [int(...)] on a string ([None] when it raises
    [ValueError]), and [time.sleep]: what its call number [n], counted from
    zero within one run of the loop, does when given [seconds]. *)
Variable os_path_expanduser : string -> string.
Variable int_of_str : string -> option Z.
Variable time_sleep : Z -> nat -> sleep_outcome.

(** *** [FolderMonitor.monitor_continuously]

    The loop ends only by an exception.  The operator's interrupt is taken
    to arrive during a sleep.  [fuel] bounds the number of passes looked at:
    [None] means that the loop is still running after [fuel] passes. *)
Fixpoint monitor_continuously_loop (fuel sleeps : nat) (check_interval : Z)
         (st : state) : option (loop_exit * state) :=
  match fuel with
  | O => None
  | S fuel' =>
      let notice := nl ++ "[" ++ time_strftime clock (clock_reads st)
                    ++ "] Checking folder sizes..." in
      let st := print notice (tick st) in
      match monitor_once fs clock st with
      | (Raise e, st) => Some (Propagated e, st)
      | (Ok _, st) =>
          match time_sleep check_interval sleeps with
          | Slept =>
              monitor_continuously_loop fuel' (S sleeps) check_interval st
          | KeyboardInterrupt =>
              Some (StoppedByUser,
                    print (nl ++ "Monitoring stopped by user.") st)
          | SleepFailed => Some (SleepError, st)
          end
      end
  end.

Definition monitor_continuously (fuel : nat) (check_interval : Z)
           (st : state) : option (loop_exit * state) :=
  let st := print ("Starting continuous monitoring (checking every "
                   ++ str_int check_interval ++ " seconds)") st in
  let st := print "Press Ctrl+C to stop monitoring" st in
  monitor_continuously_loop fuel 0 check_interval st.

(** *** [Main.remove_folder_interactive]

    [choice] is what [get_user_input] returns for the prompt. *)
Definition remove_folder_interactive (choice : string) (st : state) : state :=
  let st := print (nl ++ "🗑️ Remove Folder from Monitor") st in
  let st := print (str_repeat "-" 35) st in
  match monitoring_config st with
  | [] => print "No folders are currently being monitored." st
  | _ :: _ =>
      let st := print "Currently monitored folders:" st in
      let st := fold_left
                  (fun st '(i, folder_path) =>
                     print (str_int i ++ ". " ++ folder_path) st)
                  (enumerate_from 1 (map fst (monitoring_config st))) st in
      if String.eqb choice "" then st
      else
        let remove folder_path :=
          let (success, st) :=
            remove_folder_from_monitor folder_path st in
          if success then print "✅ Folder removed successfully!" st
          else print "❌ Failed to remove folder." st in
        match int_of_str choice with
        | Some number =>
            let folder_index := number - 1 in
            let folder_paths := map fst (monitoring_config st) in
            if (0 <=? folder_index)
               && (folder_index <? Z.of_nat (List.length folder_paths))
            then remove (nth (Z.to_nat folder_index) folder_paths "")
            else print "Error: Invalid folder number." st
        | None => remove (os_path_expanduser choice)
        end
  end.

(** *** [Main.check_once_interactive] *)
Definition check_once_interactive (st : state) : result unit * state :=
  let st := print (nl ++ "🔍 Checking Folder Sizes...") st in
  let st := print (str_repeat "-" 30) st in
  match monitor_once fs clock st with
  | (Raise e, st) => (Raise e, st)
  | (Ok violations_found, st) =>
      (Ok tt,
       if violations_found then st
       else print "✅ All folders are within their limits!" st)
  end.

(** *** [Main.start_continuous_monitoring_interactive]

    [interval_input] is what [get_user_input] returns for the prompt. *)
Definition start_continuous_monitoring_interactive
           (fuel : nat) (interval_input : string) (st : state)
  : option (setup_exit * state) :=
  let st := print (nl ++ "⏰ Continuous Monitoring Setup") st in
  let st := print (str_repeat "-" 35) st in
  match monitoring_config st with
  | [] =>
      let st := print "No folders configured for monitoring." st in
      Some (NotStarted, print "Please add folders first." st)
  | _ :: _ =>
      let start interval :=
        let st := print (nl ++ "🚀 Starting continuous monitoring...") st in
        match monitor_continuously fuel interval st with
        | Some (e, st) => Some (Monitored e, st)
        | None => None
        end in
      if String.eqb interval_input "" then start 60
      else
        match int_of_str interval_input with
        | None =>
            Some (NotStarted,
                  print "Error: Please enter a valid number for interval." st)
        | Some interval =>
            if interval <=? 0 then
              Some (NotStarted,
                    print "Error: Interval must be a positive number." st)
            else start interval
        end
  end.

End Callers.

(** ** Specification-side definitions *)

(** The two failures of a measurement, as the [OSError] each one raises. *)
Definition NotFound (folder_path : string) : exn :=
  OSError ("Folder '" ++ folder_path ++ "' does not exist.").

Definition NotADirectory (folder_path : string) : exn :=
  OSError ("'" ++ folder_path ++ "' is not a directory.").

(** Every file name listed anywhere below [top], as a path, whatever the
    nesting depth. *)
Fixpoint subtree_files (top : string) (d : dir) : list string :=
  match d with
  | Dir filenames subdirs =>
      (map (os_path_join top) filenames
       ++ (fix below (l : list (string * dir)) :=
             match l with
             | [] => []
             | (name, sub) :: rest =>
                 (subtree_files (os_path_join top name) sub ++ below rest)%list
             end) subdirs)%list
  end.

(** A listed file is accessible when it still exists and its size can be
    read. *)
Definition accessible (fs : filesystem) (file_path : string) : bool :=
  os_path_exists fs file_path
  && match os_path_getsize fs file_path with
     | Some _ => true
     | None => false
     end.

Definition byte_size (fs : filesystem) (file_path : string) : Z :=
  match os_path_getsize fs file_path with
  | Some size => Z.of_N size
  | None => 0
  end.

Definition sum_sizes (fs : filesystem) (files : list string) : Z :=
  fold_right (fun file_path acc => byte_size fs file_path + acc) 0 files.

(** The integers [float(n)] converts without overflow. *)
Definition float_range (n : Z) : Prop := Z.abs n < 2 ^ 1024 - 2 ^ 970.

(** [run] over a sequence of operations, in order. *)
Definition run_all (fs : filesystem) (clock : wallclock)
           (ops : list operation) (st : state) : state :=
  fold_left (fun st op => run fs clock op st) ops st.

(** [l1] is an initial segment of [l2]. *)
Definition is_prefix {A : Type} (l1 l2 : list A) : Prop :=
  exists rest, l2 = (l1 ++ rest)%list.

(** A finite float that is not negative, in the form [round_ratio] builds:
    at most 53 significant bits, an exponent of at least -1074, and a value
    below [2^1024]. *)
Definition finite_nonneg (x : float) : Prop :=
  match x with
  | Fin m e =>
      0 <= m <= 2 ^ 53 /\ -1074 <= e /\ (0 <= e -> m * 2 ^ e < 2 ^ 1024)
  | Inf _ | NaN => False
  end.

Definition size_units : list string := ["B"; "KB"; "MB"; "GB"; "TB"; "PB"].

(** The conversion as the specification words it: the value is divided by
    [1024.0] until it is below 1024 or the unit list is exhausted, then
    printed with two decimals, a space and the unit. *)
Fixpoint format_units (units : list string) (value : float) : result string :=
  match units with
  | [] => Ok (format_2f value)
  | unit :: rest =>
      match rest with
      | [] => Ok (format_2f value ++ " " ++ unit)
      | _ :: _ =>
          if flt value f1024 then Ok (format_2f value ++ " " ++ unit)
          else value' <- fdiv value f1024 ;; format_units rest value'
      end
  end.

Definition format_by_division (byte_count : Z) : result string :=
  value <- of_int byte_count ;; format_units size_units value.

(** The float of opposite sign. *)
Definition fneg (x : float) : float :=
  match x with
  | Fin m e => Fin (- m) e
  | Inf s => Inf (negb s)
  | NaN => NaN
  end.

(** The entries of the watch-list that are over their limit, in mapping
    order, each with its measured size: an entry whose measurement fails, or
    whose size is at or under its limit, contributes nothing. *)
Definition over_limit_entries (fs : filesystem) (config : dict)
  : list (string * Z * Z) :=
  flat_map
    (fun '(folder_path, size_limit) =>
       match get_folder_size fs folder_path with
       | Ok current_size =>
           if current_size >? size_limit
           then [(folder_path, current_size, size_limit)]
           else []
       | Raise _ => []
       end)
    config.

(** The record of one violation: the excess is the size minus the limit,
    and the three byte counts are formatted. *)
Definition make_violation (entry : string * Z * Z) : result Violation :=
  let '(folder_path, current_size, size_limit) := entry in
  current <- format_size current_size ;;
  limit <- format_size size_limit ;;
  excess <- format_size (current_size - size_limit) ;;
  Ok {| folder_path := folder_path;
        current_size := current_size;
        size_limit := size_limit;
        current_size_formatted := current;
        size_limit_formatted := limit;
        excess_size := current_size - size_limit;
        excess_size_formatted := excess |}.

(** One result per element, in order; the first failure is the failure of
    the whole. *)
Fixpoint traverse {A B : Type} (f : A -> result B) (l : list A)
  : result (list B) :=
  match l with
  | [] => Ok []
  | a :: rest => b <- f a ;; bs <- traverse f rest ;; Ok (b :: bs)
  end.

(** What the status reports for one entry of the watch-list: an error
    descriptor when the folder cannot be measured, and otherwise its size,
    its limit, both formatted, the usage percentage (zero when the limit is
    not positive) and the over-limit flag. *)
Definition reports (fs : filesystem) (entry : string * Z)
           (info : folder_info) : Prop :=
  let '(folder_path, size_limit) := entry in
  match get_folder_size fs folder_path with
  | Raise e => info = FolderError folder_path (str_exn e)
  | Ok current_size =>
      exists current limit usage,
        format_size current_size = Ok current
        /\ format_size size_limit = Ok limit
        /\ (0 < size_limit ->
            exists q,
              truediv current_size size_limit = Ok q
              /\ usage = Float (fmul q f100))
        /\ (size_limit <= 0 -> usage = Int 0)
        /\ info = FolderInfo folder_path current_size current
                             size_limit limit usage
                             (current_size >? size_limit)
  end.

(** The exact reading of the conversion, in integer arithmetic: the byte
    count over [1024^k], for the first unit of index [k] at which it is
    below 1024 (the last unit when there is none), rounded to two decimals,
    ties to even. *)
Fixpoint exact_units (units : list string) (k : Z) (byte_count : Z)
  : string :=
  match units with
  | [] => ""
  | unit :: rest =>
      match rest with
      | [] =>
          fixed2 (round_half_even (100 * byte_count) (1024 ^ k))
          ++ " " ++ unit
      | _ :: _ =>
          if byte_count <? 1024 ^ (k + 1)
          then fixed2 (round_half_even (100 * byte_count) (1024 ^ k))
               ++ " " ++ unit
          else exact_units rest (k + 1) byte_count
      end
  end.

Definition format_exact (byte_count : Z) : string :=
  exact_units size_units 0 byte_count.

(** The same value in the Standard Library's specification of IEEE 754
    floats ([SpecFloat], binary64: 53 bits of precision, exponents below
    1024). *)
Definition same_value (x : float) (y : spec_float) : bool :=
  match x, y with
  | Fin m _, S754_zero _ => m =? 0
  | Fin m e, S754_finite s m' e' =>
      let v' := if s then Z.neg m' else Z.pos m' in
      let k := Z.min e e' in
      m * 2 ^ (e - k) =? v' * 2 ^ (e' - k)
  | Inf s, S754_infinity s' => Bool.eqb s s'
  | NaN, S754_nan => true
  | _, _ => false
  end.

Definition binary64 (n : Z) : spec_float := binary_normalize 53 1024 n 0 false.

Definition sample_integers : list Z :=
  [0; 1; 100; 512; 1023; 1024; 1536; 1048575; 1572864; 1610612736;
   2 ^ 53 - 1; 2 ^ 53; 2 ^ 53 + 1; 2 ^ 53 + 2; 2 ^ 53 + 3; 10 ^ 30;
   10 ^ 300; 2 ^ 1024 - 2 ^ 970 - 1; 2 ^ 1024 - 2 ^ 970; 2 ^ 1024; 10 ^ 400;
   -5; - (2 ^ 53 + 1); - (10 ^ 400)].

Definition sample_quotients : list (Z * Z) :=
  [(1024, 10485760); (1, 3); (2, 3); (2097152, 1048576); (1, 2 ^ 53 - 1);
   (12345, 67890); (2 ^ 53 - 1, 3); (7, 2 ^ 40 + 1)].

(** The path an operation is given to register or to unregister. *)
Definition targets (op : operation) (folder_path : string) : bool :=
  match op with
  | OpRegister p _ | OpUnregister p => String.eqb p folder_path
  | _ => false
  end.

Definition info_path (info : folder_info) : string :=
  match info with
  | FolderInfo path _ _ _ _ _ _ => path
  | FolderError path _ => path
  end.

Definition info_over_limit (info : folder_info) : bool :=
  match info with
  | FolderInfo _ _ _ _ _ _ is_over_limit => is_over_limit
  | FolderError _ _ => false
  end.

(** The diagnostics of one evaluation pass: one line per entry of the
    watch-list whose measurement fails, in mapping order. *)
Definition measurement_errors (fs : filesystem) (config : dict)
  : list string :=
  flat_map
    (fun '(folder_path, _) =>
       match get_folder_size fs folder_path with
       | Ok _ => []
       | Raise e =>
           ["Error checking folder '" ++ folder_path ++ "': " ++ str_exn e]
       end)
    config.

(** Every stored limit is a positive whole number of megabytes. *)
Definition limits_positive (config : dict) : Prop :=
  Forall (fun entry => exists mb, 0 < mb /\ snd entry = mb * 1024 * 1024)
         config.

(** ** A small world for the examples

    [/tmp/t] holds a 1024-byte file, a name that vanished after the listing,
    a file whose size cannot be read, and a sub-directory with a 2048-byte
    file; [/tmp/big] holds one file of 2 MiB; [/tmp/empty] is empty. *)
Definition demo_fs : filesystem :=
  {| os_path_exists := fun p =>
       existsb (String.eqb p)
               ["/tmp/t"; "/tmp/t/file1.txt"; "/tmp/t/locked.bin";
                "/tmp/t/subdir"; "/tmp/t/subdir/file2.txt";
                "/tmp/big"; "/tmp/big/large.txt"; "/tmp/empty"];
     os_path_isdir := fun p =>
       existsb (String.eqb p)
               ["/tmp/t"; "/tmp/t/subdir"; "/tmp/big"; "/tmp/empty"];
     os_listing := fun p =>
       if String.eqb p "/tmp/t" then
         Dir ["file1.txt"; "ghost.txt"; "locked.bin"]
             [("subdir", Dir ["file2.txt"] [])]
       else if String.eqb p "/tmp/big" then Dir ["large.txt"] []
       else Dir [] [];
     os_path_getsize := fun p =>
       if String.eqb p "/tmp/t/file1.txt" then Some 1024%N
       else if String.eqb p "/tmp/t/subdir/file2.txt" then Some 2048%N
       else if String.eqb p "/tmp/big/large.txt" then Some 2097152%N
       else if String.eqb p "/tmp/t/locked.bin" then None
       else if String.eqb p "/tmp/t/ghost.txt" then None
       else Some 4096%N |}.

Definition demo_clock : wallclock :=
  {| time_strftime := fun _ => "2024-01-01 12:00:00";
     time_time := fun n => Fin (1704110400 + Z.of_nat n) 0 |}.

(** For the examples: decimal digits with an optional minus sign are read
    as an integer, the home directory is not expanded, and the third sleep
    is interrupted. *)
Definition demo_int_of_str (s : string) : option Z :=
  match s with
  | String "-" digits =>
      match NilZero.uint_of_string digits with
      | Some u => Some (- Z.of_uint u)
      | None => None
      end
  | _ =>
      match NilZero.uint_of_string s with
      | Some u => Some (Z.of_uint u)
      | None => None
      end
  end.

Definition demo_expanduser (p : string) : string := p.

Definition demo_sleep (seconds : Z) (n : nat) : sleep_outcome :=
  if Nat.eqb n 2 then KeyboardInterrupt else Slept.

(** * Properties *)

(** ** Dictionaries *)

Lemma dict_get_set_same (d : dict) (k : string) (v : Z) :
  dict_get (dict_set d k v) k = Some v.
Proof.
  induction d as [|[k' v'] d IH]; simpl.
  - now rewrite String.eqb_refl.
  - destruct (String.eqb k' k) eqn:E; simpl; rewrite E; auto.
Qed.

Lemma dict_get_set_other (d : dict) (k q : string) (v : Z) :
  q <> k -> dict_get (dict_set d k v) q = dict_get d q.
Proof.
  intros Hq. induction d as [|[k' v'] d IH]; simpl.
  - destruct (String.eqb k q) eqn:E; auto.
    apply String.eqb_eq in E. congruence.
  - destruct (String.eqb k' k) eqn:E; simpl.
    + apply String.eqb_eq in E. subst k'.
      destruct (String.eqb k q) eqn:E'; auto.
      apply String.eqb_eq in E'. congruence.
    + now rewrite IH.
Qed.

Lemma dict_set_keys (d : dict) (k : string) (v : Z) :
  map fst (dict_set d k v)
  = if dict_contains d k then map fst d else (map fst d ++ [k])%list.
Proof.
  unfold dict_contains.
  induction d as [|[k' v'] d IH]; simpl; auto.
  destruct (String.eqb k' k) eqn:E; simpl; auto.
  rewrite IH. now destruct (dict_get d k).
Qed.

(** ** Registration *)

(** C3: on an existing directory [add_folder_to_monitor] returns [True] and
    stores [size_limit_mb * 1024 * 1024] under exactly that path (a present
    key keeps its place, a new key is appended, every other entry is kept);
    on a missing path, or a path that is not a directory, it returns [False]
    and leaves the watch-list as it was. *)
Theorem add_folder_to_monitor_spec
        (fs : filesystem) (folder_path : string) (size_limit_mb : Z)
        (st : state) :
  (os_path_exists fs folder_path = true ->
   os_path_isdir fs folder_path = true ->
   let r := add_folder_to_monitor fs folder_path size_limit_mb st in
   fst r = true
   /\ dict_get (monitoring_config (snd r)) folder_path
      = Some (size_limit_mb * 1024 * 1024)
   /\ (forall other, other <> folder_path ->
         dict_get (monitoring_config (snd r)) other
         = dict_get (monitoring_config st) other)
   /\ map fst (monitoring_config (snd r))
      = (if dict_contains (monitoring_config st) folder_path
         then map fst (monitoring_config st)
         else (map fst (monitoring_config st) ++ [folder_path])%list)
   /\ alerts_triggered (snd r) = alerts_triggered st)
  /\ (os_path_exists fs folder_path = false
      \/ os_path_isdir fs folder_path = false ->
      let r := add_folder_to_monitor fs folder_path size_limit_mb st in
      fst r = false
      /\ monitoring_config (snd r) = monitoring_config st
      /\ alerts_triggered (snd r) = alerts_triggered st).
Proof.
  unfold add_folder_to_monitor. split.
  - intros He Hd. rewrite He, Hd. simpl.
    repeat split.
    + apply dict_get_set_same.
    + intros other Ho. now apply dict_get_set_other.
    + apply dict_set_keys.
  - intros [H|H].
    + rewrite H. simpl. auto.
    + rewrite H. destruct (os_path_exists fs folder_path); simpl; auto.
Qed.

Lemma add_folder_to_monitor_spec_witness :
  (let r := add_folder_to_monitor demo_fs "/tmp/empty" 10 (init None) in
   fst r = true
   /\ dict_get (monitoring_config (snd r)) "/tmp/empty" = Some 10485760)
  /\ (let r := add_folder_to_monitor demo_fs "/nonexistent" 10 (init None) in
      fst r = false /\ monitoring_config (snd r) = [])
  /\ (let r := add_folder_to_monitor demo_fs "/tmp/t/file1.txt" 10
                                     (init None) in
      fst r = false /\ monitoring_config (snd r) = []).
Proof.
  destruct (add_folder_to_monitor_spec demo_fs "/tmp/empty" 10 (init None))
    as [Hdir _].
  destruct (add_folder_to_monitor_spec demo_fs "/nonexistent" 10 (init None))
    as [_ Hmissing].
  destruct (add_folder_to_monitor_spec demo_fs "/tmp/t/file1.txt" 10
                                       (init None))
    as [_ Hfile].
  destruct (Hdir eq_refl eq_refl) as (Hret & Hget & _).
  destruct (Hmissing (or_introl eq_refl)) as (Hret1 & Hcfg1 & _).
  destruct (Hfile (or_intror eq_refl)) as (Hret2 & Hcfg2 & _).
  split; [split; [exact Hret | exact Hget]|].
  split; [split; [exact Hret1 | exact Hcfg1]|].
  split; [exact Hret2 | exact Hcfg2].
Defined.

(** C1 (as stated) fails: the engine registers an existing directory with a
    limit of zero, returning [True] and inserting the entry. *)
Lemma add_folder_to_monitor_accepts_zero_limit :
  let r := add_folder_to_monitor demo_fs "/tmp/empty" 0 (init None) in
  0 <= 0
  /\ fst r = true
  /\ monitoring_config (snd r) = [("/tmp/empty", 0)]
  /\ monitoring_config (snd r) <> monitoring_config (init None).
Proof.
  cbv zeta. repeat split; try reflexivity; try lia.
  discriminate.
Qed.

(** C1 (amended): a non-positive limit is rejected by the front end,
    [add_folder_interactive], which prints an error and returns before
    calling the engine, so the watch-list is left unchanged; the engine's
    [add_folder_to_monitor] does not look at the sign of the limit and, on an
    existing directory, stores [size_limit_mb * 1024 * 1024] and returns
    [True]. *)
Theorem nonpositive_limit_rejected_by_front_end
        (fs : filesystem) (expanduser : string -> string)
        (int_of_str : string -> option Z)
        (path_input limit_input folder_path : string) (size_limit_mb : Z)
        (st : state) :
  size_limit_mb <= 0 ->
  (int_of_str limit_input = Some size_limit_mb ->
   let st' := add_folder_interactive fs expanduser int_of_str
                                     path_input limit_input st in
   monitoring_config st' = monitoring_config st
   /\ alerts_triggered st' = alerts_triggered st
   /\ (path_input <> "" -> limit_input <> "" ->
       exists printed,
         stdout st'
         = (printed ++ ["Error: Size limit must be a positive number."])%list))
  /\ (os_path_exists fs folder_path = true ->
      os_path_isdir fs folder_path = true ->
      let r := add_folder_to_monitor fs folder_path size_limit_mb st in
      fst r = true
      /\ dict_get (monitoring_config (snd r)) folder_path
         = Some (size_limit_mb * 1024 * 1024)).
Proof.
  intros Hneg. split.
  - intros Hparse. unfold add_folder_interactive. rewrite Hparse.
    assert (Hle : (size_limit_mb <=? 0) = true) by now apply Z.leb_le.
    rewrite Hle.
    destruct (String.eqb path_input "") eqn:Ep;
      destruct (String.eqb limit_input "") eqn:El; simpl;
      repeat split; try reflexivity; intros Hp Hl;
      try (apply String.eqb_eq in Ep; contradiction);
      try (apply String.eqb_eq in El; contradiction).
    eexists. reflexivity.
  - intros He Hd. unfold add_folder_to_monitor. rewrite He, Hd. simpl.
    split; [reflexivity | apply dict_get_set_same].
Qed.

Lemma nonpositive_limit_rejected_by_front_end_witness :
  monitoring_config
    (add_folder_interactive demo_fs (fun p => p) (fun _ => Some (-3))
                            "/tmp/empty" "-3" (init None))
  = []
  /\ fst (add_folder_to_monitor demo_fs "/tmp/empty" (-3) (init None)) = true.
Proof.
  destruct (nonpositive_limit_rejected_by_front_end
              demo_fs (fun p => p) (fun _ => Some (-3))
              "/tmp/empty" "-3" "/tmp/empty" (-3) (init None))
    as [Hfront Hengine].
  - lia.
  - destruct (Hfront eq_refl) as (Hcfg & _).
    destruct (Hengine eq_refl eq_refl) as (Hret & _).
    split; [exact Hcfg | exact Hret].
Defined.

(** ** Measuring a folder *)

(** Induction over a directory tree, with the property at hand for every
    sub-directory. *)
Lemma dir_induction (P : dir -> Prop) :
  (forall filenames subdirs,
      Forall (fun entry => P (snd entry)) subdirs ->
      P (Dir filenames subdirs)) ->
  forall d, P d.
Proof.
  intros Hstep. fix IH 1. intros [filenames subdirs].
  apply Hstep.
  induction subdirs as [|[name sub] rest IHrest]; constructor.
  - apply IH.
  - exact IHrest.
Qed.

Lemma sum_sizes_app (fs : filesystem) (l1 l2 : list string) :
  sum_sizes fs (l1 ++ l2) = sum_sizes fs l1 + sum_sizes fs l2.
Proof.
  unfold sum_sizes. induction l1 as [|f l1 IH]; simpl; [reflexivity|].
  rewrite IH. lia.
Qed.

(** The inner loop adds the sizes of the accessible files of one directory. *)
Lemma inner_loop_total (fs : filesystem) (dirpath : string)
      (filenames : list string) (total_size : Z) :
  fold_left (add_file_size fs dirpath) filenames total_size
  = total_size
    + sum_sizes fs (filter (accessible fs)
                           (map (os_path_join dirpath) filenames)).
Proof.
  revert total_size.
  induction filenames as [|f rest IH]; intros total_size; simpl.
  - unfold sum_sizes. simpl. lia.
  - rewrite IH. unfold add_file_size, accessible, byte_size.
    destruct (os_path_exists fs (os_path_join dirpath f)); simpl.
    + destruct (os_path_getsize fs (os_path_join dirpath f)) eqn:E; simpl.
      * unfold byte_size. rewrite E. lia.
      * reflexivity.
    + reflexivity.
Qed.

(** The two nested loops, started from any running total, add the sizes of
    the accessible files of the whole subtree. *)
Lemma walk_total (fs : filesystem) (d : dir) :
  forall (top : string) (total_size : Z),
    fold_left
      (fun total_size '(dirpath, dirnames, filenames) =>
         fold_left (add_file_size fs dirpath) filenames total_size)
      (os_walk top d) total_size
    = total_size
      + sum_sizes fs (filter (accessible fs) (subtree_files top d)).
Proof.
  induction d as [filenames subdirs IH] using dir_induction.
  intros top total_size. simpl.
  rewrite inner_loop_total, filter_app, sum_sizes_app.
  cut (forall acc,
          fold_left
            (fun total_size '(dirpath, dirnames, filenames) =>
               fold_left (add_file_size fs dirpath) filenames total_size)
            ((fix walk_subdirs (l : list (string * dir)) :=
                match l with
                | [] => []
                | (name, sub) :: rest =>
                    (os_walk (os_path_join top name) sub
                     ++ walk_subdirs rest)%list
                end) subdirs) acc
          = acc
            + sum_sizes fs
                (filter (accessible fs)
                   ((fix below (l : list (string * dir)) :=
                       match l with
                       | [] => []
                       | (name, sub) :: rest =>
                           (subtree_files (os_path_join top name) sub
                            ++ below rest)%list
                       end) subdirs))).
  { intros H. rewrite H. lia. }
  clear total_size.
  induction IH as [|[name sub] rest Hsub Hrest IHrest]; intros acc.
  - simpl. unfold sum_sizes. simpl. lia.
  - simpl in Hsub. rewrite fold_left_app, Hsub, IHrest.
    rewrite filter_app, sum_sizes_app. lia.
Qed.

Lemma get_folder_size_dir (fs : filesystem) (folder_path : string) :
  os_path_exists fs folder_path = true ->
  os_path_isdir fs folder_path = true ->
  get_folder_size fs folder_path
  = Ok (sum_sizes fs
          (filter (accessible fs)
                  (subtree_files folder_path (os_listing fs folder_path)))).
Proof.
  intros He Hd. unfold get_folder_size. rewrite He, Hd. simpl.
  now rewrite walk_total.
Qed.

Lemma filter_all_accessible (fs : filesystem) (files : list string) :
  forallb (accessible fs) files = true ->
  filter (accessible fs) files = files.
Proof.
  induction files as [|f rest IH]; simpl; [reflexivity|].
  intros H. apply Bool.andb_true_iff in H. destruct H as [Hf Hrest].
  rewrite Hf. now rewrite IH.
Qed.

Lemma NotFound_not_NotADirectory (p q : string) :
  NotFound p <> NotADirectory q.
Proof. unfold NotFound, NotADirectory. simpl. discriminate. Qed.

(** C4: on an existing directory [get_folder_size] returns the sum of the
    sizes of the files of the whole subtree, at any depth, that can be
    measured: of all the files listed when each of them is accessible, and
    zero for an empty directory; on a missing path it fails with
    [NotFound], on a path that is not a directory with [NotADirectory], two
    distinct failures. *)
Theorem get_folder_size_spec (fs : filesystem) (folder_path : string) :
  (os_path_exists fs folder_path = true ->
   os_path_isdir fs folder_path = true ->
   get_folder_size fs folder_path
   = Ok (sum_sizes fs
           (filter (accessible fs)
                   (subtree_files folder_path (os_listing fs folder_path))))
   /\ (forallb (accessible fs)
               (subtree_files folder_path (os_listing fs folder_path))
       = true ->
       get_folder_size fs folder_path
       = Ok (sum_sizes fs
               (subtree_files folder_path (os_listing fs folder_path))))
   /\ (os_listing fs folder_path = Dir [] [] ->
       get_folder_size fs folder_path = Ok 0))
  /\ (os_path_exists fs folder_path = false ->
      get_folder_size fs folder_path = Raise (NotFound folder_path))
  /\ (os_path_exists fs folder_path = true ->
      os_path_isdir fs folder_path = false ->
      get_folder_size fs folder_path = Raise (NotADirectory folder_path))
  /\ NotFound folder_path <> NotADirectory folder_path.
Proof.
  split; [|split; [|split]].
  - intros He Hd. split; [|split].
    + now apply get_folder_size_dir.
    + intros Hall. rewrite get_folder_size_dir by assumption.
      now rewrite filter_all_accessible.
    + intros Hempty. rewrite get_folder_size_dir by assumption.
      rewrite Hempty. reflexivity.
  - intros He. unfold get_folder_size. now rewrite He.
  - intros He Hd. unfold get_folder_size. now rewrite He, Hd.
  - apply NotFound_not_NotADirectory.
Qed.

Lemma get_folder_size_spec_witness :
  get_folder_size demo_fs "/tmp/t" = Ok 3072
  /\ get_folder_size demo_fs "/tmp/big" = Ok 2097152
  /\ get_folder_size demo_fs "/tmp/empty" = Ok 0
  /\ get_folder_size demo_fs "/nonexistent" = Raise (NotFound "/nonexistent")
  /\ get_folder_size demo_fs "/tmp/t/file1.txt"
     = Raise (NotADirectory "/tmp/t/file1.txt").
Proof.
  destruct (get_folder_size_spec demo_fs "/tmp/t") as (Hdir & _).
  destruct (get_folder_size_spec demo_fs "/tmp/big") as (Hbig & _).
  destruct (get_folder_size_spec demo_fs "/tmp/empty") as (Hempty & _).
  destruct (get_folder_size_spec demo_fs "/nonexistent") as (_ & Hmissing & _).
  destruct (get_folder_size_spec demo_fs "/tmp/t/file1.txt")
    as (_ & _ & Hfile & _).
  split; [|split; [|split; [|split]]].
  - exact (proj1 (Hdir eq_refl eq_refl)).
  - exact (proj1 (proj2 (Hbig eq_refl eq_refl)) eq_refl).
  - exact (proj2 (proj2 (Hempty eq_refl eq_refl)) eq_refl).
  - exact (Hmissing eq_refl).
  - exact (Hfile eq_refl eq_refl).
Defined.

(** C5: when the root is an existing directory and one listed file cannot be
    accessed (it vanished after the listing, or its size cannot be read),
    the measurement does not fail: it returns the sum of the sizes of the
    accessible files listed before and after that file. *)
Theorem get_folder_size_skips_inaccessible_file
        (fs : filesystem) (folder_path bad : string)
        (before after : list string) :
  os_path_exists fs folder_path = true ->
  os_path_isdir fs folder_path = true ->
  subtree_files folder_path (os_listing fs folder_path)
  = (before ++ bad :: after)%list ->
  accessible fs bad = false ->
  get_folder_size fs folder_path
  = Ok (sum_sizes fs (filter (accessible fs) before)
        + sum_sizes fs (filter (accessible fs) after)).
Proof.
  intros He Hd Hfiles Hbad.
  rewrite get_folder_size_dir by assumption.
  rewrite Hfiles, filter_app. simpl. rewrite Hbad.
  now rewrite sum_sizes_app.
Qed.

Lemma get_folder_size_skips_inaccessible_file_witness :
  get_folder_size demo_fs "/tmp/t" = Ok (1024 + 2048).
Proof.
  exact (get_folder_size_skips_inaccessible_file
           demo_fs "/tmp/t" "/tmp/t/ghost.txt"
           ["/tmp/t/file1.txt"]
           ["/tmp/t/locked.bin"; "/tmp/t/subdir/file2.txt"]
           eq_refl eq_refl eq_refl eq_refl).
Defined.

(** ** The alert history *)

Lemma is_prefix_refl {A : Type} (l : list A) : is_prefix l l.
Proof. exists []. now rewrite app_nil_r. Qed.

Lemma is_prefix_trans {A : Type} (l1 l2 l3 : list A) :
  is_prefix l1 l2 -> is_prefix l2 l3 -> is_prefix l1 l3.
Proof.
  intros [r1 H1] [r2 H2]. exists (r1 ++ r2)%list.
  now rewrite H2, H1, app_assoc.
Qed.

Lemma is_prefix_length {A : Type} (l1 l2 : list A) :
  is_prefix l1 l2 -> (List.length l1 <= List.length l2)%nat.
Proof. intros [r H]. rewrite H, length_app. lia. Qed.

(** The evaluation loop only prints: it leaves the watch-list, the alert
    history and the clock as they are. *)
Lemma check_folder_limits_loop_frame
      (fs : filesystem) (items : dict) :
  forall (violations : list Violation) (st : state),
    let st' := snd (check_folder_limits_loop fs items violations st) in
    monitoring_config st' = monitoring_config st
    /\ alerts_triggered st' = alerts_triggered st
    /\ clock_reads st' = clock_reads st.
Proof.
  induction items as [|[folder_path size_limit] rest IH];
    intros violations st; simpl; auto.
  destruct (check_entry fs folder_path size_limit) as [[v|]|[e|e|e]];
    simpl; auto; try apply IH.
  destruct (IH violations
               (print ("Error checking folder '" ++ folder_path ++ "': " ++ e)
                      st)) as (H1 & H2 & H3).
  auto.
Qed.

Lemma check_folder_limits_frame (fs : filesystem) (st : state) :
  let st' := snd (check_folder_limits fs st) in
  monitoring_config st' = monitoring_config st
  /\ alerts_triggered st' = alerts_triggered st
  /\ clock_reads st' = clock_reads st.
Proof. apply check_folder_limits_loop_frame. Qed.

(** One alert is appended, holding the violation it was raised for. *)
Lemma trigger_alert_appends (clock : wallclock) (v : Violation) (st : state) :
  exists a,
    alerts_triggered (trigger_alert clock v st)
    = (alerts_triggered st ++ [a])%list
    /\ violation a = v
    /\ monitoring_config (trigger_alert clock v st) = monitoring_config st.
Proof. eexists. unfold trigger_alert. simpl. repeat split. Qed.

(** Raising the alerts of a list of violations appends one alert for each,
    in the order of the list. *)
Lemma trigger_alerts_append (clock : wallclock) (vs : list Violation) :
  forall st,
  exists new,
    alerts_triggered
      (fold_left (fun st v => trigger_alert clock v st) vs st)
    = (alerts_triggered st ++ new)%list
    /\ map violation new = vs
    /\ monitoring_config
         (fold_left (fun st v => trigger_alert clock v st) vs st)
       = monitoring_config st.
Proof.
  induction vs as [|v vs IH]; intros st; simpl.
  - exists []. rewrite app_nil_r. auto.
  - destruct (trigger_alert_appends clock v st) as (a & Ha & Hv & Hc).
    destruct (IH (trigger_alert clock v st)) as (new & Hnew & Hmap & Hc').
    exists (a :: new). rewrite Hnew, Ha, <- app_assoc. simpl.
    rewrite Hmap, Hv, Hc', Hc. auto.
Qed.

(** C7: on an empty watch-list [monitor_once] returns [False] and leaves the
    history as it was; on a non-empty one, when the evaluation returns the
    violations [vs], it returns [True] exactly when [vs] is not empty and
    appends one alert per violation, in the order of [vs] (nothing when [vs]
    is empty). *)
Theorem monitor_once_spec (fs : filesystem) (clock : wallclock) (st : state) :
  (monitoring_config st = [] ->
   fst (monitor_once fs clock st) = Ok false
   /\ alerts_triggered (snd (monitor_once fs clock st)) = alerts_triggered st)
  /\ (monitoring_config st <> [] ->
      forall vs st1,
        check_folder_limits fs st = (Ok vs, st1) ->
        fst (monitor_once fs clock st)
        = Ok (match vs with [] => false | _ :: _ => true end)
        /\ (exists new,
               alerts_triggered (snd (monitor_once fs clock st))
               = (alerts_triggered st ++ new)%list
               /\ map violation new = vs)
        /\ (vs = [] ->
            alerts_triggered (snd (monitor_once fs clock st))
            = alerts_triggered st)).
Proof.
  split.
  - intros Hempty. unfold monitor_once. rewrite Hempty. simpl. auto.
  - intros Hne vs st1 Heval. unfold monitor_once.
    destruct (monitoring_config st) as [|entry rest] eqn:Hcfg;
      [congruence|].
    rewrite Heval.
    pose proof (check_folder_limits_frame fs st) as Hframe.
    rewrite Heval in Hframe. simpl in Hframe.
    destruct Hframe as (_ & Halerts & _).
    destruct vs as [|v vs].
    + simpl. split; [reflexivity|]. split.
      * exists []. rewrite app_nil_r. auto.
      * auto.
    + cbv beta iota. split; [reflexivity|]. split.
      * cbn [snd].
        match goal with
        | |- context [fold_left ?f ?l ?s] =>
            destruct (trigger_alerts_append clock l s) as (new & Hnew & Hmap & _)
        end.
        exists new. rewrite Hnew. simpl. rewrite Halerts. auto.
      * discriminate.
Qed.

Lemma monitor_once_spec_witness :
  fst (monitor_once demo_fs demo_clock (init None)) = Ok false
  /\ fst (monitor_once demo_fs demo_clock
                       (init (Some [("/tmp/big", 1048576)]))) = Ok true.
Proof.
  destruct (monitor_once_spec demo_fs demo_clock (init None)) as [Hempty _].
  destruct (monitor_once_spec demo_fs demo_clock
                              (init (Some [("/tmp/big", 1048576)])))
    as [_ Hsome].
  split.
  - exact (proj1 (Hempty eq_refl)).
  - assert (Hne : monitoring_config (init (Some [("/tmp/big", 1048576)]))
                  <> []) by discriminate.
    assert (Heval :
              check_folder_limits demo_fs (init (Some [("/tmp/big", 1048576)]))
              = (Ok [{| folder_path := "/tmp/big";
                        current_size := 2097152;
                        size_limit := 1048576;
                        current_size_formatted := "2.00 MB";
                        size_limit_formatted := "1.00 MB";
                        excess_size := 1048576;
                        excess_size_formatted := "1.00 MB" |}],
                 init (Some [("/tmp/big", 1048576)])))
      by (vm_compute; reflexivity).
    exact (proj1 (Hsome Hne _ _ Heval)).
Defined.

Lemma monitor_once_history (fs : filesystem) (clock : wallclock) (st : state) :
  is_prefix (alerts_triggered st)
            (alerts_triggered (snd (monitor_once fs clock st))).
Proof.
  unfold monitor_once.
  destruct (monitoring_config st) as [|entry rest].
  - apply is_prefix_refl.
  - pose proof (check_folder_limits_frame fs st) as Hframe.
    destruct (check_folder_limits fs st) as [[vs|e] st1];
      simpl in Hframe; destruct Hframe as (_ & Halerts & _).
    + destruct vs as [|v vs].
      * simpl. rewrite Halerts. apply is_prefix_refl.
      * cbv beta iota. cbn [snd].
        match goal with
        | |- context [fold_left ?f ?l ?s] =>
            destruct (trigger_alerts_append clock l s) as (new & Hnew & _)
        end.
        rewrite Hnew. simpl. rewrite Halerts. now exists new.
    + simpl. rewrite Halerts. apply is_prefix_refl.
Qed.

Lemma run_history (fs : filesystem) (clock : wallclock)
      (op : operation) (st : state) :
  is_prefix (alerts_triggered st) (alerts_triggered (run fs clock op st)).
Proof.
  destruct op as [p mb|p|p| | |v|]; cbn [run].
  - unfold add_folder_to_monitor.
    destruct (os_path_exists fs p); simpl; [|apply is_prefix_refl].
    destruct (os_path_isdir fs p); simpl; apply is_prefix_refl.
  - unfold remove_folder_from_monitor.
    destruct (dict_contains (monitoring_config st) p); simpl;
      apply is_prefix_refl.
  - destruct (get_folder_size fs p); apply is_prefix_refl.
  - destruct (check_folder_limits_frame fs st) as (_ & Halerts & _).
    rewrite Halerts. apply is_prefix_refl.
  - apply monitor_once_history.
  - destruct (trigger_alert_appends clock v st) as (a & Ha & _).
    rewrite Ha. now exists [a].
  - apply is_prefix_refl.
Qed.

(** C10: the alert history is append-only.  Whatever public operation is
    run ([add_folder_to_monitor], [remove_folder_from_monitor],
    [get_folder_size], [check_folder_limits], [monitor_once],
    [trigger_alert], [get_monitoring_status]), and whether it returns or
    raises, the history before it is an initial segment of the history after
    it; the same holds over any sequence of operations, so the length of the
    history never decreases. *)
Theorem alert_history_append_only (fs : filesystem) (clock : wallclock) :
  (forall op st,
      is_prefix (alerts_triggered st) (alerts_triggered (run fs clock op st)))
  /\ (forall ops st,
         is_prefix (alerts_triggered st)
                   (alerts_triggered (run_all fs clock ops st))
         /\ (List.length (alerts_triggered st)
             <= List.length (alerts_triggered (run_all fs clock ops st)))%nat).
Proof.
  split; [apply run_history|].
  assert (Hall : forall ops st,
             is_prefix (alerts_triggered st)
                       (alerts_triggered (run_all fs clock ops st))).
  { induction ops as [|op ops IH]; intros st; simpl.
    - apply is_prefix_refl.
    - eapply is_prefix_trans; [apply run_history | apply IH]. }
  intros ops st. split; [apply Hall|].
  apply is_prefix_length, Hall.
Qed.

(** ** Agreement with the Standard Library's IEEE 754 specification *)

(** On the sample values, conversion from an integer, division by
    [1024.0], multiplication by [100.0], comparison with [1024.0] and the
    quotient of two integers give the floats of [SpecFloat]. *)
Example binary64_agreement :
  forallb (fun n => same_value (round_ratio n 1) (binary64 n))
          sample_integers = true
  /\ forallb (fun n =>
                match fdiv (round_ratio n 1) f1024 with
                | Ok q => same_value q (SFdiv 53 1024 (binary64 n)
                                              (binary64 1024))
                | Raise _ => false
                end) sample_integers = true
  /\ forallb (fun n =>
                same_value (fmul (round_ratio n 1) f100)
                           (SFmul 53 1024 (binary64 n) (binary64 100)))
             sample_integers = true
  /\ forallb (fun n =>
                Bool.eqb (flt (round_ratio n 1) f1024)
                         (SFltb (binary64 n) (binary64 1024)))
             sample_integers = true
  /\ forallb (fun '(a, b) =>
                same_value (round_ratio a b)
                           (SFdiv 53 1024 (binary64 a) (binary64 b)))
             sample_quotients = true.
Proof. repeat split; vm_compute; reflexivity. Qed.

(** ** Rounding *)

Lemma round_half_even_bounds (p q : Z) :
  0 < q -> p / q <= round_half_even p q <= p / q + 1.
Proof.
  intros Hq. unfold round_half_even.
  destruct (2 * (p mod q) ?= q); [destruct (Z.even (p / q))| |]; lia.
Qed.

Lemma round_half_even_nonneg (p q : Z) :
  0 < q -> 0 <= p -> 0 <= round_half_even p q.
Proof.
  intros Hq Hp. pose proof (round_half_even_bounds p q Hq).
  pose proof (Z.div_pos p q Hp Hq). lia.
Qed.

Lemma round_half_even_nonpos (p q : Z) :
  0 < q -> p < 0 -> round_half_even p q <= 0.
Proof.
  intros Hq Hp. pose proof (round_half_even_bounds p q Hq).
  assert (p / q < 0) by (apply Z.div_lt_upper_bound; lia). lia.
Qed.

Lemma round_half_even_one (p : Z) : round_half_even p 1 = p.
Proof.
  unfold round_half_even. rewrite Z.mod_1_r, Z.div_1_r. reflexivity.
Qed.

(** Rounding never goes past an integer the quotient is below. *)
Lemma round_half_even_le (p q n : Z) :
  0 < q -> p < n * q -> round_half_even p q <= n.
Proof.
  intros Hq Hp. pose proof (round_half_even_bounds p q Hq).
  assert (p / q < n) by (apply Z.div_lt_upper_bound; lia). lia.
Qed.

Lemma round_half_even_ge (p q n : Z) :
  0 < q -> n * q <= p -> n <= round_half_even p q.
Proof.
  intros Hq Hp. pose proof (round_half_even_bounds p q Hq).
  assert (n <= p / q) by (apply Z.div_le_lower_bound; lia). lia.
Qed.

(** A quotient below [n - 1/2] rounds to at most [n - 1]. *)
Lemma round_half_even_below_half (p q n : Z) :
  0 < q -> 2 * p < (2 * n - 1) * q -> round_half_even p q <= n - 1.
Proof.
  intros Hq Hp. unfold round_half_even.
  pose proof (Z.div_mod p q ltac:(lia)) as Hdm.
  pose proof (Z.mod_pos_bound p q Hq) as Hr.
  assert (Hd : p / q <= n - 1).
  { assert (p / q < n); [|lia].
    apply Z.div_lt_upper_bound; [lia|]. nia. }
  destruct (Z.eq_dec (p / q) (n - 1)) as [E|E].
  - assert (Hlt : 2 * (p mod q) < q) by nia.
    apply Z.compare_lt_iff in Hlt. rewrite Hlt. lia.
  - destruct (2 * (p mod q) ?= q); [destruct (Z.even (p / q))| |]; lia.
Qed.

Lemma pow2_pos (n : Z) : 0 <= n -> 0 < 2 ^ n.
Proof. intros Hn. apply Z.pow_pos_nonneg; lia. Qed.

Lemma pow2_split (n k : Z) : 0 <= k <= n -> 2 ^ n = 2 ^ k * 2 ^ (n - k).
Proof.
  intros H. rewrite <- Z.pow_add_r by lia. f_equal. lia.
Qed.

(** [ilog2_ratio a b] is the integer [k] with [2^k <= a / b < 2^(k+1)]. *)
Lemma ilog2_ratio_spec (a b : Z) :
  0 < a -> 0 < b ->
  let k := ilog2_ratio a b in
  b * 2 ^ Z.max k 0 <= a * 2 ^ Z.max (- k) 0 < 2 * b * 2 ^ Z.max k 0.
Proof.
  intros Ha Hb. unfold ilog2_ratio.
  pose proof (Z.log2_spec a Ha) as [Ha1 Ha2].
  pose proof (Z.log2_spec b Hb) as [Hb1 Hb2].
  pose proof (Z.log2_nonneg a) as Hla.
  pose proof (Z.log2_nonneg b) as Hlb.
  rewrite Z.pow_succ_r in Ha2, Hb2 by assumption.
  set (la := Z.log2 a) in *. set (lb := Z.log2 b) in *.
  destruct (Z.leb_spec 0 (la - lb)) as [Hk|Hk].
  - pose proof (pow2_split la lb ltac:(lia)) as Hsplit.
    pose proof (pow2_pos (la - lb) Hk) as Hp.
    pose proof (pow2_pos lb Hlb) as Hq.
    destruct (Z.ltb_spec a (b * 2 ^ (la - lb))) as [Hbelow|Hbelow].
    + destruct (Z.eq_dec (la - lb) 0) as [E|E].
      * rewrite E in *. change (2 ^ 0) with 1 in *.
        replace (Z.max (0 - 1) 0) with 0 by lia.
        replace (Z.max (- (0 - 1)) 0) with 1 by lia.
        change (2 ^ 0) with 1. change (2 ^ 1) with 2. nia.
      * replace (Z.max (la - lb - 1) 0) with (la - lb - 1) by lia.
        replace (Z.max (- (la - lb - 1)) 0) with 0 by lia.
        change (2 ^ 0) with 1.
        assert (Hsucc : 2 ^ (la - lb) = 2 * 2 ^ (la - lb - 1)).
        { rewrite <- Z.pow_succ_r by lia. f_equal. lia. }
        pose proof (pow2_pos (la - lb - 1) ltac:(lia)). nia.
    + replace (Z.max (la - lb) 0) with (la - lb) by lia.
      replace (Z.max (- (la - lb)) 0) with 0 by lia.
      change (2 ^ 0) with 1. nia.
  - pose proof (pow2_split lb la ltac:(lia)) as Hsplit.
    replace (lb - la) with (- (la - lb)) in Hsplit by lia.
    pose proof (pow2_pos (- (la - lb)) ltac:(lia)) as Hp.
    pose proof (pow2_pos la Hla) as Hq.
    destruct (Z.ltb_spec (a * 2 ^ (- (la - lb))) b) as [Hbelow|Hbelow].
    + replace (Z.max (la - lb - 1) 0) with 0 by lia.
      replace (Z.max (- (la - lb - 1)) 0) with (Z.succ (- (la - lb))) by lia.
      rewrite Z.pow_succ_r by lia. change (2 ^ 0) with 1. nia.
    + replace (Z.max (la - lb) 0) with 0 by lia.
      replace (Z.max (- (la - lb)) 0) with (- (la - lb)) by lia.
      change (2 ^ 0) with 1. nia.
Qed.

(** Rounding a quotient that is not negative and below the overflow
    threshold gives a finite float. *)
Lemma round_ratio_finite_nonneg (a b : Z) :
  0 <= a -> 0 < b -> a < b * (2 ^ 1024 - 2 ^ 970) ->
  finite_nonneg (round_ratio a b).
Proof.
  intros Ha Hb Hrange. unfold round_ratio.
  destruct (Z.eqb_spec a 0) as [Hz|Hz].
  { simpl. repeat split; lia. }
  rewrite (Z.abs_eq a) by lia.
  pose proof (ilog2_ratio_spec a b ltac:(lia) Hb) as Hk. cbv zeta in Hk.
  set (k := ilog2_ratio a b) in *.
  set (e := Z.max (k - 52) (-1074)).
  assert (H53 : 2 ^ 53 = 2 * 2 ^ 52) by reflexivity.
  assert (H52 : 0 < 2 ^ 52) by reflexivity.
  destruct (Z.leb_spec 0 e) as [He|He].
  - assert (Hek : k = e + 52) by lia.
    replace (Z.max k 0) with k in Hk by lia.
    replace (Z.max (- k) 0) with 0 in Hk by lia.
    change (2 ^ 0) with 1 in Hk.
    assert (Hsplit : 2 ^ k = 2 ^ e * 2 ^ 52).
    { rewrite (pow2_split k e) by lia. do 2 f_equal. lia. }
    pose proof (pow2_pos e He) as Hpe.
    set (q := b * 2 ^ e).
    assert (Hq : 0 < q) by (unfold q; nia).
    set (m := round_half_even a q).
    assert (Hm0 : 0 <= m) by (apply round_half_even_nonneg; lia).
    assert (Hm53 : m <= 2 ^ 53).
    { apply round_half_even_le; [exact Hq|]. unfold q. nia. }
    assert (Hemax : e <= 971).
    { destruct (Z.le_gt_cases e 971) as [H|H]; [exact H|exfalso].
      assert (2 ^ 1024 <= 2 ^ k) by (apply Z.pow_le_mono_r; lia).
      assert (0 < 2 ^ 970) by reflexivity. nia. }
    assert (Hval : m * 2 ^ e < 2 ^ 1024).
    { destruct (Z.eq_dec e 971) as [E|E].
      - assert (Hm : m <= 2 ^ 53 - 1).
        { apply round_half_even_below_half; [exact Hq|]. unfold q.
          rewrite E.
          replace ((2 * 2 ^ 53 - 1) * (b * 2 ^ 971))
            with (2 * (b * (2 ^ 1024 - 2 ^ 970)));
            [lia|].
          replace (2 ^ 1024) with (2 ^ 53 * 2 ^ 971) by reflexivity.
          replace (2 ^ 971) with (2 * 2 ^ 970) by reflexivity. ring. }
        rewrite E.
        replace (2 ^ 1024) with (2 ^ 53 * 2 ^ 971) by reflexivity.
        assert (0 < 2 ^ 971) by reflexivity. nia.
      - assert (Hle : 2 ^ e <= 2 ^ 970) by (apply Z.pow_le_mono_r; lia).
        replace (2 ^ 1024) with (2 * (2 ^ 53 * 2 ^ 970)) by reflexivity.
        assert (0 < 2 ^ 970) by reflexivity. nia. }
    assert (Hchk : (2 ^ 1024 <=? m * 2 ^ e) = false) by (apply Z.leb_gt; lia).
    cbv iota. rewrite Bool.andb_true_l. fold q. fold m.
    rewrite (Z.abs_eq m), Hchk by lia.
    unfold finite_nonneg. repeat split; lia.
  - cbv iota. rewrite Bool.andb_false_l.
    set (m := round_half_even (a * 2 ^ (- e)) b).
    pose proof (pow2_pos (- e) ltac:(lia)) as Hpe.
    assert (Hm0 : 0 <= m) by (apply round_half_even_nonneg; nia).
    assert (Hm53 : m <= 2 ^ 53).
    { apply round_half_even_le; [exact Hb|].
      destruct (Z.le_gt_cases 0 k) as [Hk0|Hk0].
      - replace (Z.max k 0) with k in Hk by lia.
        replace (Z.max (- k) 0) with 0 in Hk by lia.
        change (2 ^ 0) with 1 in Hk.
        assert (Hee : - e = 52 - k) by lia. rewrite Hee.
        assert (Hsplit : 2 ^ 52 = 2 ^ k * 2 ^ (52 - k))
          by (apply pow2_split; lia).
        pose proof (pow2_pos k Hk0). pose proof (pow2_pos (52 - k) ltac:(lia)).
        nia.
      - replace (Z.max k 0) with 0 in Hk by lia.
        replace (Z.max (- k) 0) with (- k) in Hk by lia.
        change (2 ^ 0) with 1 in Hk.
        pose proof (pow2_pos (- k) ltac:(lia)) as Hpk.
        destruct (Z.le_gt_cases (-1074) (k - 52)) as [Hn|Hn].
        + assert (Hee : - e = - k + 52) by lia. rewrite Hee.
          rewrite Z.pow_add_r by lia. nia.
        + assert (Hee : - e = 1074) by lia. rewrite Hee.
          assert (Hsplit : 2 ^ (- k + 51) = 2 ^ 1074 * 2 ^ (- k + 51 - 1074))
            by (apply pow2_split; lia).
          pose proof (pow2_pos (- k + 51 - 1074) ltac:(lia)).
          assert (H1074 : 0 < 2 ^ 1074) by reflexivity.
          rewrite Z.pow_add_r in Hsplit by lia.
          assert (H51 : 2 ^ 53 = 4 * 2 ^ 51) by reflexivity.
          assert (0 < 2 ^ 51) by reflexivity.
          nia. }
    unfold finite_nonneg. repeat split; lia.
Qed.

(** ** Integers as floats *)

Lemma ilog2_ratio_one (a : Z) : 0 < a -> ilog2_ratio a 1 = Z.log2 a.
Proof.
  intros Ha. unfold ilog2_ratio. change (Z.log2 1) with 0.
  rewrite Z.sub_0_r.
  pose proof (Z.log2_nonneg a) as Hl.
  pose proof (Z.log2_spec a Ha) as [Hlow _].
  destruct (Z.leb_spec 0 (Z.log2 a)) as [_|H]; [|lia].
  destruct (Z.ltb_spec a (1 * 2 ^ Z.log2 a)) as [H|_]; lia.
Qed.

(** What [float(n)] is when it does not overflow. *)
Lemma of_int_Ok (n : Z) (x : float) :
  of_int n = Ok x ->
  (n = 0 /\ x = Fin 0 0)
  \/ (n <> 0
      /\ let e := Z.log2 (Z.abs n) - 52 in
         x = Fin (if 0 <=? e then round_half_even n (2 ^ e)
                  else n * 2 ^ (- e)) e).
Proof.
  unfold of_int, round_ratio.
  destruct (Z.eqb_spec n 0) as [Hz|Hz].
  { intros H. left. split; [exact Hz | congruence]. }
  intros H. right. split; [exact Hz|]. cbv zeta.
  rewrite ilog2_ratio_one in H by lia.
  pose proof (Z.log2_nonneg (Z.abs n)) as Hl.
  replace (Z.max (Z.log2 (Z.abs n) - 52) (-1074))
    with (Z.log2 (Z.abs n) - 52) in H by lia.
  set (e := Z.log2 (Z.abs n) - 52) in *.
  rewrite Z.mul_1_l, round_half_even_one in H.
  destruct ((0 <=? e)
            && (2 ^ 1024
                <=? Z.abs (if 0 <=? e then round_half_even n (2 ^ e)
                           else n * 2 ^ (- e)) * 2 ^ e));
    congruence.
Qed.

(** Below 1024 an integer and its float compare alike with [1024.0]. *)
Lemma of_int_below_1024 (n : Z) (x : float) :
  n < 1024 -> of_int n = Ok x -> flt x f1024 = true.
Proof.
  intros Hn Hx. apply of_int_Ok in Hx.
  destruct Hx as [[_ ->]|[Hz Hx]]; [reflexivity|].
  cbv zeta in Hx. subst x. unfold flt, f1024.
  set (e := Z.log2 (Z.abs n) - 52).
  apply Z.ltb_lt.
  destruct (Z.leb_spec 0 e) as [He|He].
  - (* at least 53 bits: [n] is negative *)
    assert (Hneg : n < 0).
    { destruct (Z.le_gt_cases 0 n) as [H|H]; [exfalso|exact H].
      assert (Z.log2 (Z.abs n) < 10); [|lia].
      apply Z.log2_lt_pow2; [lia|]. rewrite Z.abs_eq by lia.
      change (2 ^ 10) with 1024. lia. }
    replace (Z.min e 0) with 0 by lia. rewrite !Z.sub_0_r.
    pose proof (pow2_pos e He) as Hp.
    pose proof (round_half_even_nonpos n (2 ^ e) Hp Hneg).
    change (2 ^ 0) with 1. nia.
  - replace (Z.min e 0) with e by lia.
    replace (e - e) with 0 by lia. replace (0 - e) with (- e) by lia.
    change (2 ^ 0) with 1.
    pose proof (pow2_pos (- e) ltac:(lia)). nia.
Qed.

Lemma of_int_from_1024 (n : Z) (x : float) :
  1024 <= n -> of_int n = Ok x -> flt x f1024 = false.
Proof.
  intros Hn Hx. apply of_int_Ok in Hx.
  destruct Hx as [[-> _]|[Hz Hx]]; [lia|].
  cbv zeta in Hx. subst x. unfold flt, f1024.
  rewrite (Z.abs_eq n) by lia.
  set (e := Z.log2 n - 52).
  apply Z.ltb_ge.
  destruct (Z.leb_spec 0 e) as [He|He].
  - replace (Z.min e 0) with 0 by lia. rewrite !Z.sub_0_r.
    pose proof (pow2_pos e He) as Hp.
    assert (Hm : 2 ^ 52 <= round_half_even n (2 ^ e)).
    { apply round_half_even_ge; [exact Hp|].
      rewrite <- Z.pow_add_r by lia.
      replace (52 + e) with (Z.log2 n) by (unfold e; lia).
      apply Z.log2_spec. lia. }
    assert (H52 : 1024 * 1 <= 2 ^ 52) by (vm_compute; discriminate).
    change (2 ^ 0) with 1. nia.
  - replace (Z.min e 0) with e by lia.
    replace (e - e) with 0 by lia. replace (0 - e) with (- e) by lia.
    change (2 ^ 0) with 1.
    pose proof (pow2_pos (- e) ltac:(lia)). nia.
Qed.

Lemma of_int_finite (n : Z) :
  0 <= n -> float_range n ->
  exists x, of_int n = Ok x /\ finite_nonneg x.
Proof.
  intros Hn Hr. unfold float_range in Hr. rewrite Z.abs_eq in Hr by lia.
  pose proof (round_ratio_finite_nonneg n 1 Hn ltac:(lia) ltac:(lia)) as H.
  unfold of_int. destruct (round_ratio n 1) as [m e|s|]; simpl in H;
    try contradiction.
  eexists. split; [reflexivity|exact H].
Qed.

(** Dividing a finite float by [1024.0] gives a finite float. *)
Lemma fdiv_1024_finite (x : float) :
  finite_nonneg x ->
  exists y, fdiv x f1024 = Ok y /\ finite_nonneg y.
Proof.
  destruct x as [m e|s|]; [|contradiction..].
  intros (Hm & He & Hval).
  unfold fdiv, f1024. change (1024 =? 0) with false. cbv iota.
  change (Z.sgn 1024) with 1. change (Z.abs 1024) with 1024.
  rewrite Z.mul_1_r.
  assert (Hbig : 2 ^ 1024 <= 1024 * (2 ^ 1024 - 2 ^ 970))
    by (vm_compute; discriminate).
  assert (H53 : 2 ^ 53 < 2 ^ 1024 - 2 ^ 970) by reflexivity.
  eexists. split; [reflexivity|].
  destruct (Z.leb_spec 0 e) as [H|H].
  - replace (e - 0) with e by lia. pose proof (pow2_pos e H).
    apply round_ratio_finite_nonneg; [nia|lia|].
    specialize (Hval H). lia.
  - replace (0 - e) with (- e) by lia.
    pose proof (pow2_pos (- e) ltac:(lia)).
    apply round_ratio_finite_nonneg; [lia|lia|]. nia.
Qed.

(** A finite magnitude below [1024.0] is displayed as at most 1024.00. *)
Lemma hundredths_bounds (m e : Z) :
  0 <= m ->
  0 <= hundredths m e
  /\ (flt (Fin m e) f1024 = true -> hundredths m e <= 102400).
Proof.
  intros Hm. unfold hundredths, flt, f1024.
  destruct (Z.leb_spec 0 e) as [He|He].
  - pose proof (pow2_pos e He) as Hp. split; [nia|].
    replace (Z.min e 0) with 0 by lia. rewrite !Z.sub_0_r.
    change (2 ^ 0) with 1. intros Hlt. apply Z.ltb_lt in Hlt. nia.
  - pose proof (pow2_pos (- e) ltac:(lia)) as Hp. split.
    + apply round_half_even_nonneg; lia.
    + replace (Z.min e 0) with e by lia.
      replace (e - e) with 0 by lia. replace (0 - e) with (- e) by lia.
    change (2 ^ 0) with 1.
      intros Hlt. apply Z.ltb_lt in Hlt.
      apply round_half_even_le; [exact Hp|]. lia.
Qed.

(** ** Exact quotients *)

Lemma round_half_even_mul (n q : Z) :
  0 < q -> round_half_even (n * q) q = n.
Proof.
  intros Hq. unfold round_half_even.
  rewrite Z.div_mul, Z.mod_mul by lia.
  assert (Hc : (2 * 0 ?= q) = Lt) by (apply Z.compare_lt_iff; lia).
  now rewrite Hc.
Qed.

Lemma round_half_even_scale (p q c : Z) :
  0 < q -> 0 < c -> round_half_even (p * c) (q * c) = round_half_even p q.
Proof.
  intros Hq Hc. unfold round_half_even.
  rewrite Z.div_mul_cancel_r, Z.mul_mod_distr_r by lia.
  destruct (Z.compare_spec (2 * (p mod q)) q) as [He|Hl|Hg].
  - assert (Hc' : (2 * (p mod q * c) ?= q * c) = Eq)
      by (apply Z.compare_eq_iff; nia).
    now rewrite Hc'.
  - assert (Hc' : (2 * (p mod q * c) ?= q * c) = Lt)
      by (apply Z.compare_lt_iff; nia).
    now rewrite Hc'.
  - assert (Hc' : (2 * (p mod q * c) ?= q * c) = Gt)
      by (apply Z.compare_gt_iff; nia).
    now rewrite Hc'.
Qed.

Lemma pow1024 (k : Z) : 0 <= k -> 1024 ^ k = 2 ^ (10 * k).
Proof. intros Hk. now rewrite Z.pow_mul_r by lia. Qed.

(** A quotient equal to [n / 2^j], with [n] below [2^53] and the quotient
    at least one, is a float: rounding it changes nothing. *)
Lemma round_ratio_dyadic (n j a b : Z) :
  0 < n < 2 ^ 53 -> 0 <= j -> 2 ^ j <= n ->
  0 < a -> 0 < b -> a * 2 ^ j = n * b ->
  round_ratio a b
  = Fin (n * 2 ^ (52 - Z.log2 n)) (Z.log2 n - j - 52).
Proof.
  intros Hn Hj Hjn Ha Hb Heq.
  pose proof (ilog2_ratio_spec a b Ha Hb) as Hk. cbv zeta in Hk.
  pose proof (pow2_pos j Hj) as Hpj.
  assert (Hl53 : Z.log2 n < 53) by (apply Z.log2_lt_pow2; lia).
  assert (Hlj : j <= Z.log2 n) by (apply Z.log2_le_pow2; lia).
  assert (Hk0 : 0 <= ilog2_ratio a b).
  { destruct (Z.le_gt_cases 0 (ilog2_ratio a b)) as [H|H]; [exact H|].
    exfalso.
    replace (Z.max (ilog2_ratio a b) 0) with 0 in Hk by lia.
    replace (Z.max (- ilog2_ratio a b) 0) with (- ilog2_ratio a b) in Hk
      by lia.
    change (2 ^ 0) with 1 in Hk.
    assert (Hp : 2 * 1 <= 2 ^ (- ilog2_ratio a b)).
    { change (2 * 1) with (2 ^ 1). apply Z.pow_le_mono_r; lia. }
    nia. }
  assert (Hkl : ilog2_ratio a b = Z.log2 n - j).
  { replace (Z.max (ilog2_ratio a b) 0) with (ilog2_ratio a b) in Hk by lia.
    replace (Z.max (- ilog2_ratio a b) 0) with 0 in Hk by lia.
    change (2 ^ 0) with 1 in Hk.
    set (k := ilog2_ratio a b) in *.
    pose proof (pow2_pos k Hk0) as Hpk.
    assert (Hu : Z.log2 n = k + j); [|lia].
    apply Z.log2_unique; [lia|].
    rewrite Z.pow_succ_r, Z.pow_add_r by lia. nia. }
  unfold round_ratio.
  destruct (Z.eqb_spec a 0) as [Hz|_]; [lia|].
  rewrite (Z.abs_eq a), Hkl by lia.
  replace (Z.max (Z.log2 n - j - 52) (-1074)) with (Z.log2 n - j - 52)
    by lia.
  set (L := Z.log2 n) in *.
  pose proof (pow2_pos (52 - L) ltac:(lia)) as Hp52.
  destruct (Z.leb_spec 0 (L - j - 52)) as [He|He].
  - assert (HL : L = 52) by lia. assert (Hj0 : j = 0) by lia.
    rewrite HL, Hj0 in *. change (52 - 0 - 52) with 0.
    change (52 - 52) with 0. change (2 ^ 0) with 1 in *.
    rewrite !Z.mul_1_r in *. subst a.
    rewrite round_half_even_mul by lia.
    rewrite Bool.andb_true_l, (Z.abs_eq n) by lia.
    assert (Hchk : (2 ^ 1024 <=? n) = false).
    { apply Z.leb_gt. assert (2 ^ 53 < 2 ^ 1024) by reflexivity. lia. }
    now rewrite Hchk.
  - rewrite Bool.andb_false_l.
    replace (- (L - j - 52)) with (j + (52 - L)) by lia.
    rewrite Z.pow_add_r by lia.
    replace (a * (2 ^ j * 2 ^ (52 - L))) with (n * 2 ^ (52 - L) * b) by nia.
    now rewrite round_half_even_mul.
Qed.

Lemma of_int_exact (n : Z) :
  0 < n < 2 ^ 53 ->
  of_int n = Ok (Fin (n * 2 ^ (52 - Z.log2 n)) (Z.log2 n - 52)).
Proof.
  intros Hn. unfold of_int.
  rewrite (round_ratio_dyadic n 0 n 1) by (change (2 ^ 0) with 1; lia).
  now rewrite Z.sub_0_r.
Qed.

(** The float reached after [k] exact divisions of [n] by [1024.0]. *)
Lemma fdiv_1024_exact (n k : Z) :
  0 < n < 2 ^ 53 -> 0 <= k -> 1024 ^ (k + 1) <= n ->
  fdiv (Fin (n * 2 ^ (52 - Z.log2 n)) (Z.log2 n - 52 - 10 * k)) f1024
  = Ok (Fin (n * 2 ^ (52 - Z.log2 n)) (Z.log2 n - 52 - 10 * (k + 1))).
Proof.
  intros Hn Hk Hge. rewrite pow1024 in Hge by lia.
  assert (Hl53 : Z.log2 n < 53) by (apply Z.log2_lt_pow2; lia).
  assert (Hl : 10 * (k + 1) <= Z.log2 n) by (apply Z.log2_le_pow2; lia).
  set (L := Z.log2 n) in *.
  pose proof (pow2_pos (52 - L) ltac:(lia)) as Hp52.
  unfold fdiv, f1024. change (1024 =? 0) with false. cbv iota.
  change (Z.sgn 1024) with 1. change (Z.abs 1024) with 1024.
  rewrite Z.mul_1_r. f_equal.
  replace (L - 52 - 10 * (k + 1)) with (L - 10 * (k + 1) - 52) by lia.
  destruct (Z.leb_spec 0 (L - 52 - 10 * k)) as [He|He].
  - assert (HL : L = 52) by lia. assert (Hk0 : k = 0) by lia.
    replace (L - 52 - 10 * k - 0) with 0 by lia. change (2 ^ 0) with 1.
    apply round_ratio_dyadic; try lia.
    replace (10 * (k + 1)) with 10 by lia. replace (52 - L) with 0 by lia.
    change (2 ^ 10) with 1024. change (2 ^ 0) with 1. lia.
  - pose proof (pow2_pos (0 - (L - 52 - 10 * k)) ltac:(lia)).
    apply round_ratio_dyadic; try lia; try nia.
    replace (0 - (L - 52 - 10 * k)) with (52 - L + 10 * k) by lia.
    replace (10 * (k + 1)) with (10 * k + 10) by lia.
    rewrite !Z.pow_add_r by lia. change (2 ^ 10) with 1024. ring.
Qed.

Lemma flt_1024_exact (n k : Z) :
  0 < n < 2 ^ 53 -> 0 <= k -> 1024 ^ k <= n ->
  flt (Fin (n * 2 ^ (52 - Z.log2 n)) (Z.log2 n - 52 - 10 * k)) f1024
  = (n <? 1024 ^ (k + 1)).
Proof.
  intros Hn Hk Hge. rewrite pow1024 in * by lia.
  assert (Hl53 : Z.log2 n < 53) by (apply Z.log2_lt_pow2; lia).
  set (L := Z.log2 n) in *.
  pose proof (pow2_pos (52 - L) ltac:(lia)) as Hp52.
  pose proof (pow2_pos (10 * k) ltac:(lia)) as Hpk.
  unfold flt, f1024.
  replace (Z.min (L - 52 - 10 * k) 0) with (L - 52 - 10 * k) by lia.
  replace (L - 52 - 10 * k - (L - 52 - 10 * k)) with 0 by lia.
  replace (0 - (L - 52 - 10 * k)) with (10 * k + (52 - L)) by lia.
  replace (10 * (k + 1)) with (10 + 10 * k) by lia.
  rewrite !Z.pow_add_r by lia. change (2 ^ 0) with 1. change (2 ^ 10) with 1024.
  destruct (Z.ltb_spec n (1024 * 2 ^ (10 * k))) as [H|H].
  - apply Z.ltb_lt. nia.
  - apply Z.ltb_ge. nia.
Qed.

Lemma hundredths_exact (n k : Z) :
  0 < n < 2 ^ 53 -> 0 <= k ->
  hundredths (n * 2 ^ (52 - Z.log2 n)) (Z.log2 n - 52 - 10 * k)
  = round_half_even (100 * n) (1024 ^ k).
Proof.
  intros Hn Hk. rewrite pow1024 by lia.
  assert (Hl53 : Z.log2 n < 53) by (apply Z.log2_lt_pow2; lia).
  set (L := Z.log2 n) in *.
  pose proof (pow2_pos (52 - L) ltac:(lia)) as Hp52.
  pose proof (pow2_pos (10 * k) ltac:(lia)) as Hpk.
  unfold hundredths.
  destruct (Z.leb_spec 0 (L - 52 - 10 * k)) as [He|He].
  - assert (HL : L = 52) by lia. assert (Hk0 : k = 0) by lia.
    replace (52 - L) with 0 by lia. replace (L - 52 - 10 * k) with 0 by lia.
    replace (10 * k) with 0 by lia. change (2 ^ 0) with 1.
    rewrite round_half_even_one. ring.
  - replace (- (L - 52 - 10 * k)) with (10 * k + (52 - L)) by lia.
    rewrite Z.pow_add_r by lia.
    replace (100 * (n * 2 ^ (52 - L))) with (100 * n * 2 ^ (52 - L)) by ring.
    now apply round_half_even_scale.
Qed.

(** ** Formatting a size *)

Lemma int_lt_1024 (n : Z) : int_lt n f1024 = (n <? 1024).
Proof.
  unfold int_lt, flt, f1024. change (Z.min 0 0) with 0.
  change (2 ^ (0 - 0)) with 1. now rewrite !Z.mul_1_r.
Qed.

Lemma format_size_loop_cons (unit : string) (rest : list string)
      (size_bytes : number) :
  format_size_loop (unit :: rest) size_bytes
  = if lt_1024 size_bytes
    then s <- fmt_2f size_bytes ;; Ok (s ++ " " ++ unit)
    else x <- div_1024 size_bytes ;; format_size_loop rest (Float x).
Proof. reflexivity. Qed.

Lemma format_units_cons (unit next : string) (rest : list string)
      (value : float) :
  format_units (unit :: next :: rest) value
  = if flt value f1024 then Ok (format_2f value ++ " " ++ unit)
    else value' <- fdiv value f1024 ;; format_units (next :: rest) value'.
Proof. reflexivity. Qed.

(** Once the value is a float, the loop of [format_size] is the walk over
    the unit list, with ["PB"] as the last unit. *)
Lemma format_size_loop_units (units : list string) :
  forall x,
    format_size_loop units (Float x) = format_units (units ++ ["PB"]) x.
Proof.
  induction units as [|unit rest IH]; intros x.
  - reflexivity.
  - rewrite format_size_loop_cons. cbn [lt_1024 fmt_2f div_1024 bind].
    assert (Hrest : exists u r, (rest ++ ["PB"])%list = u :: r).
    { destruct rest; simpl; eauto. }
    destruct Hrest as (u & r & Hrest).
    change ((unit :: rest) ++ ["PB"])%list
      with (unit :: (rest ++ ["PB"]))%list.
    rewrite Hrest, format_units_cons, <- Hrest.
    destruct (flt x f1024); [reflexivity|].
    destruct (fdiv x f1024) as [y|err]; [|reflexivity].
    cbn [bind]. apply IH.
Qed.

Lemma format_size_division (byte_count : Z) :
  format_size byte_count = format_by_division byte_count.
Proof.
  unfold format_size, format_by_division, size_units.
  rewrite format_size_loop_cons. cbn [lt_1024 fmt_2f div_1024].
  rewrite int_lt_1024.
  destruct (of_int byte_count) as [x|err] eqn:Hx.
  - cbn [bind]. rewrite format_units_cons.
    destruct (Z.ltb_spec byte_count 1024) as [Hn|Hn].
    + now rewrite (of_int_below_1024 byte_count x Hn Hx).
    + rewrite (of_int_from_1024 byte_count x Hn Hx).
      destruct (fdiv x f1024) as [y|err]; [|reflexivity].
      cbn [bind].
      apply (format_size_loop_units ["KB"; "MB"; "GB"; "TB"]).
  - cbn [bind]. now destruct (byte_count <? 1024).
Qed.

Lemma format_2f_exact (n k : Z) :
  0 < n < 2 ^ 53 -> 0 <= k ->
  format_2f (Fin (n * 2 ^ (52 - Z.log2 n)) (Z.log2 n - 52 - 10 * k))
  = fixed2 (round_half_even (100 * n) (1024 ^ k)).
Proof.
  intros Hn Hk. unfold format_2f. rewrite hundredths_exact by assumption.
  assert (Hl53 : Z.log2 n < 53) by (apply Z.log2_lt_pow2; lia).
  pose proof (pow2_pos (52 - Z.log2 n) ltac:(lia)) as Hp.
  assert (Hs : (n * 2 ^ (52 - Z.log2 n) <? 0) = false)
    by (apply Z.ltb_ge; nia).
  rewrite Hs, Z.abs_eq; [reflexivity|].
  apply round_half_even_nonneg; [|lia].
  rewrite pow1024 by lia. apply pow2_pos. lia.
Qed.

(** After [k] divisions of a byte count below [2^53] the loop prints the
    exact quotient by [1024^k], or by a higher power when that quotient is
    not yet below 1024 and units are left. *)
Lemma format_size_loop_exact (units : list string) :
  forall n k,
    0 < n < 2 ^ 53 -> 0 <= k -> 1024 ^ k <= n ->
    format_size_loop
      units
      (Float (Fin (n * 2 ^ (52 - Z.log2 n)) (Z.log2 n - 52 - 10 * k)))
    = Ok (exact_units (units ++ ["PB"]) k n).
Proof.
  induction units as [|unit rest IH]; intros n k Hn Hk Hge.
  - cbn [format_size_loop fmt_2f bind app exact_units].
    now rewrite format_2f_exact.
  - rewrite format_size_loop_cons. cbn [lt_1024 fmt_2f div_1024 bind].
    rewrite flt_1024_exact by assumption.
    assert (Hrest : exists u r, (rest ++ ["PB"])%list = u :: r).
    { destruct rest; simpl; eauto. }
    destruct Hrest as (u & r & Hrest).
    change ((unit :: rest) ++ ["PB"])%list
      with (unit :: (rest ++ ["PB"]))%list.
    cbn [exact_units]. rewrite Hrest at 1.
    destruct (Z.ltb_spec n (1024 ^ (k + 1))) as [Hlt|Hnext].
    + now rewrite format_2f_exact.
    + rewrite fdiv_1024_exact by assumption. cbn [bind].
      apply IH; [assumption|lia|assumption].
Qed.

(** C9: [format_size] is the function the specification describes.  For
    every integer, failures included, it is the walk over the six units in
    which the byte count, as a float, is divided by [1024.0] until it is
    below 1024 or the units are exhausted, and is printed with two decimals,
    a space and the unit.  For a byte count that is not negative and below
    [2^53] these divisions are exact, and the number printed is the byte
    count over the power of 1024 of the unit, rounded to two decimals.  The
    four documented values follow. *)
Theorem format_size_by_division :
  (forall byte_count, format_size byte_count = format_by_division byte_count)
  /\ (forall byte_count,
         0 <= byte_count < 2 ^ 53 ->
         format_size byte_count = Ok (format_exact byte_count))
  /\ format_size 512 = Ok "512.00 B"
  /\ format_size 1536 = Ok "1.50 KB"
  /\ format_size 1572864 = Ok "1.50 MB"
  /\ format_size 1610612736 = Ok "1.50 GB".
Proof.
  split; [exact format_size_division|].
  split; [|repeat split; vm_compute; reflexivity].
  intros n Hn.
  destruct (Z.eq_dec n 0) as [->|Hnz]; [vm_compute; reflexivity|].
  rewrite format_size_division. unfold format_by_division.
  rewrite of_int_exact by lia. cbn [bind].
  change size_units with (["B"; "KB"; "MB"; "GB"; "TB"] ++ ["PB"])%list.
  rewrite <- format_size_loop_units.
  replace (Z.log2 n - 52) with (Z.log2 n - 52 - 10 * 0) by lia.
  unfold format_exact.
  change size_units with (["B"; "KB"; "MB"; "GB"; "TB"] ++ ["PB"])%list.
  apply format_size_loop_exact; [lia|lia|].
  change (1024 ^ 0) with 1. lia.
Qed.

Lemma format_size_by_division_witness :
  format_size 1536 = Ok (format_exact 1536)
  /\ format_exact 1536 = "1.50 KB".
Proof.
  destruct format_size_by_division as (_ & Hexact & _).
  split.
  - apply Hexact. split; [lia|reflexivity].
  - vm_compute. reflexivity.
Defined.

(** From a finite float on, the loop returns a number with two decimals, a
    space and a unit; unless the unit is the last one, the magnitude is
    below 1024 and is displayed as at most 1024.00. *)
Lemma format_size_loop_shape (units : list string) :
  forall x,
    finite_nonneg x ->
    exists m e unit,
      format_size_loop units (Float x)
      = Ok (fixed2 (hundredths m e) ++ " " ++ unit)
      /\ In unit (units ++ ["PB"])
      /\ 0 <= hundredths m e
      /\ (unit <> "PB" ->
          flt (Fin m e) f1024 = true /\ hundredths m e <= 102400).
Proof.
  induction units as [|unit rest IH]; intros x Hx.
  - destruct x as [m e|s|]; try contradiction.
    destruct Hx as (Hm & _).
    destruct (hundredths_bounds m e ltac:(lia)) as [Hh _].
    exists m, e, "PB". cbn [format_size_loop fmt_2f bind format_2f].
    assert (Hs : (m <? 0) = false) by (apply Z.ltb_ge; lia).
    rewrite Hs, Z.abs_eq by exact Hh.
    repeat split; simpl; auto. congruence.
  - rewrite format_size_loop_cons. cbn [lt_1024 fmt_2f div_1024 bind].
    destruct (flt x f1024) eqn:Hlt.
    + destruct x as [m e|s|]; try contradiction.
      destruct Hx as (Hm & _).
      destruct (hundredths_bounds m e ltac:(lia)) as [Hh Hle].
      exists m, e, unit. cbn [format_2f].
      assert (Hs : (m <? 0) = false) by (apply Z.ltb_ge; lia).
      rewrite Hs, Z.abs_eq by exact Hh.
      repeat split; simpl; auto.
    + destruct (fdiv_1024_finite x Hx) as (y & Hy & Hfin).
      rewrite Hy. cbn [bind].
      destruct (IH y Hfin) as (m & e & u & Heq & Hin & Hh & Hu).
      exists m, e, u. repeat split; auto.
      * right. exact Hin.
      * apply Hu; assumption.
      * apply Hu; assumption.
Qed.

(** C2 (as stated) fails: 1048575 bytes are below 1024 KB, and are displayed
    as ["1024.00 KB"]. *)
Lemma format_size_displays_1024 :
  0 <= 1048575
  /\ format_size 1048575 = Ok "1024.00 KB"
  /\ fixed2 102400 = "1024.00"
  /\ ~ (102400 < 1024 * 100).
Proof.
  repeat split; try (vm_compute; reflexivity); lia.
Qed.

(** C2 (amended): for a byte count that is not negative and that a float can
    hold, [format_size] returns a number with two decimals, a space and one
    of the six units; unless the unit is PB, the magnitude is below 1024
    before it is rounded to two decimals, and the number displayed is at
    most 1024.00. *)
Theorem format_size_shape (byte_count : Z) :
  0 <= byte_count ->
  float_range byte_count ->
  exists m e unit,
    format_size byte_count = Ok (fixed2 (hundredths m e) ++ " " ++ unit)
    /\ In unit size_units
    /\ 0 <= hundredths m e
    /\ (unit <> "PB" ->
        flt (Fin m e) f1024 = true /\ hundredths m e <= 102400).
Proof.
  intros Hn Hr.
  destruct (of_int_finite byte_count Hn Hr) as (x & Hx & Hfin).
  unfold format_size.
  rewrite format_size_loop_cons. cbn [lt_1024 fmt_2f div_1024].
  rewrite int_lt_1024, Hx. cbn [bind].
  destruct (Z.ltb_spec byte_count 1024) as [Hlt|Hge].
  - destruct x as [m e|s|]; try contradiction.
    pose proof (of_int_below_1024 _ _ Hlt Hx) as Hflt.
    destruct Hfin as (Hm & _).
    destruct (hundredths_bounds m e ltac:(lia)) as [Hh Hle].
    exists m, e, "B". cbn [format_2f].
    assert (Hs : (m <? 0) = false) by (apply Z.ltb_ge; lia).
    rewrite Hs, Z.abs_eq by exact Hh.
    repeat split; simpl; auto.
  - destruct (fdiv_1024_finite x Hfin) as (y & Hy & Hyfin).
    rewrite Hy. cbn [bind].
    destruct (format_size_loop_shape ["KB"; "MB"; "GB"; "TB"] y Hyfin)
      as (m & e & u & Heq & Hin & Hh & Hu).
    exists m, e, u. repeat split; auto.
    + right. exact Hin.
    + apply Hu; assumption.
    + apply Hu; assumption.
Qed.

Lemma format_size_shape_witness :
  exists m e unit,
    format_size 1536 = Ok (fixed2 (hundredths m e) ++ " " ++ unit)
    /\ In unit size_units
    /\ 0 <= hundredths m e
    /\ (unit <> "PB" ->
        flt (Fin m e) f1024 = true /\ hundredths m e <= 102400).
Proof.
  apply (format_size_shape 1536).
  - lia.
  - unfold float_range. vm_compute. reflexivity.
Defined.

(** ** When formatting fails *)

Lemma round_half_even_opp (p q : Z) :
  0 < q -> round_half_even (- p) q = - round_half_even p q.
Proof.
  intros Hq. unfold round_half_even.
  pose proof (Z.mod_pos_bound p q Hq) as Hr.
  destruct (Z.eq_dec (p mod q) 0) as [Hz|Hnz].
  - rewrite Z.mod_opp_l_z, Z.div_opp_l_z, Hz by lia.
    replace (2 * 0) with 0 by lia.
    assert (Hc : (0 ?= q) = Lt) by (apply Z.compare_lt_iff; lia).
    now rewrite Hc.
  - rewrite Z.mod_opp_l_nz, Z.div_opp_l_nz by lia.
    destruct (Z.compare_spec (2 * (p mod q)) q) as [He|Hl|Hg].
    + assert (Hc : (2 * (q - p mod q) ?= q) = Eq)
        by (apply Z.compare_eq_iff; lia).
      rewrite Hc.
      replace (- (p / q) - 1) with (- (p / q + 1)) by lia.
      rewrite Z.even_opp, Z.even_add.
      destruct (Z.even (p / q)); simpl; lia.
    + assert (Hc : (2 * (q - p mod q) ?= q) = Gt)
        by (apply Z.compare_gt_iff; lia).
      rewrite Hc. lia.
    + assert (Hc : (2 * (q - p mod q) ?= q) = Lt)
        by (apply Z.compare_lt_iff; lia).
      rewrite Hc. lia.
Qed.

Lemma round_ratio_opp (a b : Z) :
  0 < b -> round_ratio (- a) b = fneg (round_ratio a b).
Proof.
  intros Hb. unfold round_ratio.
  destruct (Z.eqb_spec a 0) as [Hz|Hz].
  { subst a. reflexivity. }
  destruct (Z.eqb_spec (- a) 0) as [Hz'|_]; [lia|].
  rewrite Z.abs_opp.
  set (e := Z.max (ilog2_ratio (Z.abs a) b - 52) (-1074)).
  assert (Hm : (if 0 <=? e then round_half_even (- a) (b * 2 ^ e)
                else round_half_even (- a * 2 ^ (- e)) b)
               = - (if 0 <=? e then round_half_even a (b * 2 ^ e)
                    else round_half_even (a * 2 ^ (- e)) b)).
  { destruct (Z.leb_spec 0 e) as [He|He].
    - pose proof (pow2_pos e He). apply round_half_even_opp. nia.
    - rewrite Z.mul_opp_l. now apply round_half_even_opp. }
  rewrite Hm, Z.abs_opp.
  assert (Hs : (- a <? 0) = negb (a <? 0)).
  { destruct (Z.ltb_spec (- a) 0), (Z.ltb_spec a 0); simpl; lia. }
  rewrite Hs.
  destruct ((0 <=? e)
            && (2 ^ 1024
                <=? Z.abs (if 0 <=? e then round_half_even a (b * 2 ^ e)
                           else round_half_even (a * 2 ^ (- e)) b) * 2 ^ e));
    reflexivity.
Qed.

(** [float(n)] does not overflow on the integers of the float range. *)
Lemma of_int_in_range (n : Z) : float_range n -> exists x, of_int n = Ok x.
Proof.
  intros Hr. destruct (Z.le_gt_cases 0 n) as [Hn|Hn].
  - destruct (of_int_finite n Hn Hr) as (x & Hx & _). eauto.
  - unfold float_range in Hr. rewrite Z.abs_neq in Hr by lia.
    pose proof (round_ratio_finite_nonneg (- n) 1 ltac:(lia) ltac:(lia)
                                           ltac:(lia)) as H.
    unfold of_int. replace n with (- - n) by lia.
    rewrite round_ratio_opp by lia.
    destruct (round_ratio (- n) 1) as [m e|s|]; simpl in H;
      try contradiction.
    simpl. eauto.
Qed.

Lemma fdiv_1024_returns (x : float) : exists y, fdiv x f1024 = Ok y.
Proof.
  destruct x as [m e|s|]; unfold fdiv, f1024;
    change (1024 =? 0) with false; cbv iota; eauto.
Qed.

Lemma format_size_loop_float_returns (units : list string) :
  forall x, exists s, format_size_loop units (Float x) = Ok s.
Proof.
  induction units as [|unit rest IH]; intros x.
  - cbn [format_size_loop fmt_2f bind]. eauto.
  - rewrite format_size_loop_cons. cbn [lt_1024 fmt_2f div_1024 bind].
    destruct (flt x f1024); [eauto|].
    destruct (fdiv_1024_returns x) as (y & Hy). rewrite Hy. cbn [bind].
    apply IH.
Qed.

(** [format_size] returns when the integer converts to a float, and fails
    with the [OverflowError] of the conversion when it does not. *)
Lemma format_size_cases (n : Z) :
  (exists x s, of_int n = Ok x /\ format_size n = Ok s)
  \/ (of_int n = Raise (OverflowError "int too large to convert to float")
      /\ format_size n
         = Raise (OverflowError "int too large to convert to float")).
Proof.
  unfold format_size. rewrite format_size_loop_cons.
  cbn [lt_1024 fmt_2f div_1024].
  assert (Hcases : (exists x, of_int n = Ok x)
                   \/ of_int n
                      = Raise (OverflowError
                                 "int too large to convert to float")).
  { unfold of_int. destruct (round_ratio n 1); eauto. }
  destruct Hcases as [(x & Hx)|Hx]; rewrite Hx; cbn [bind].
  - left. exists x.
    destruct (int_lt n f1024); [eauto|].
    destruct (fdiv_1024_returns x) as (y & Hy). rewrite Hy. cbn [bind].
    destruct (format_size_loop_float_returns ["KB"; "MB"; "GB"; "TB"] y)
      as (s & Hs).
    eauto.
  - right. split; [reflexivity|]. now destruct (int_lt n f1024).
Qed.

Lemma format_size_in_range (n : Z) :
  float_range n -> exists s, format_size n = Ok s.
Proof.
  intros Hr. destruct (of_int_in_range n Hr) as (x & Hx).
  destruct (format_size_cases n) as [(x' & s & _ & Hs)|[Hraise _]];
    [eauto|congruence].
Qed.

(** ** Evaluating the limits *)

Lemma get_folder_size_raises (fs : filesystem) (p : string) (e : exn) :
  get_folder_size fs p = Raise e -> exists msg, e = OSError msg.
Proof.
  unfold get_folder_size.
  destruct (os_path_exists fs p); simpl.
  - destruct (os_path_isdir fs p); simpl; intros H; inversion H; eauto.
  - intros H; inversion H; eauto.
Qed.

Lemma make_violation_raises (entry : string * Z * Z) (e : exn) :
  make_violation entry = Raise e -> exists msg, e = OverflowError msg.
Proof.
  destruct entry as [[p cur] l]. unfold make_violation.
  destruct (format_size_cases cur) as [(? & s1 & _ & H1)|[_ H1]];
    rewrite H1; cbn [bind]; [|intros H; inversion H; eauto].
  destruct (format_size_cases l) as [(? & s2 & _ & H2)|[_ H2]];
    rewrite H2; cbn [bind]; [|intros H; inversion H; eauto].
  destruct (format_size_cases (cur - l)) as [(? & s3 & _ & H3)|[_ H3]];
    rewrite H3; cbn [bind]; [discriminate|intros H; inversion H; eauto].
Qed.

(** The [try] block, in terms of the measurement and of the record built. *)
Lemma check_entry_unfold (fs : filesystem) (p : string) (l : Z) :
  check_entry fs p l
  = match get_folder_size fs p with
    | Ok cur =>
        if cur >? l then v <- make_violation (p, cur, l) ;; Ok (Some v)
        else Ok None
    | Raise e => Raise e
    end.
Proof.
  unfold check_entry, make_violation.
  destruct (get_folder_size fs p) as [cur|e]; cbn [bind]; [|reflexivity].
  destruct (cur >? l); [|reflexivity].
  destruct (format_size cur); cbn [bind]; [|reflexivity].
  destruct (format_size l); cbn [bind]; [|reflexivity].
  destruct (format_size (cur - l)); reflexivity.
Qed.

(** The loop returns the accumulated violations followed by one violation
    per over-limit entry, in mapping order. *)
Lemma check_folder_limits_loop_result (fs : filesystem) (items : dict) :
  forall (acc : list Violation) (st : state),
    fst (check_folder_limits_loop fs items acc st)
    = (new <- traverse make_violation (over_limit_entries fs items) ;;
       Ok (acc ++ new)%list).
Proof.
  induction items as [|[p l] rest IH]; intros acc st.
  - simpl. now rewrite app_nil_r.
  - cbn [check_folder_limits_loop over_limit_entries flat_map].
    rewrite check_entry_unfold.
    destruct (get_folder_size fs p) as [cur|e] eqn:Hsize.
    + destruct (cur >? l).
      * cbn [app traverse].
        destruct (make_violation (p, cur, l)) as [v|e] eqn:Hv; cbn [bind].
        -- rewrite IH. fold (over_limit_entries fs rest).
           destruct (traverse make_violation (over_limit_entries fs rest));
             cbn [bind]; [|reflexivity].
           now rewrite <- app_assoc.
        -- destruct (make_violation_raises _ _ Hv) as (msg & ->).
           reflexivity.
      * cbn [app]. apply IH.
    + destruct (get_folder_size_raises fs p e Hsize) as (msg & ->).
      cbn [app]. apply IH.
Qed.

Lemma traverse_make_violation (entries : list (string * Z * Z)) :
  (forall p cur l,
      In (p, cur, l) entries ->
      float_range cur /\ float_range l /\ float_range (cur - l)) ->
  exists vs,
    traverse make_violation entries = Ok vs
    /\ map (fun v => (folder_path v, current_size v, size_limit v)) vs
       = entries
    /\ Forall (fun v =>
                 excess_size v = current_size v - size_limit v
                 /\ format_size (current_size v)
                    = Ok (current_size_formatted v)
                 /\ format_size (size_limit v) = Ok (size_limit_formatted v)
                 /\ format_size (excess_size v)
                    = Ok (excess_size_formatted v)) vs.
Proof.
  induction entries as [|[[p cur] l] rest IH]; intros Hrange.
  - exists []. simpl. auto.
  - destruct (Hrange p cur l (or_introl eq_refl)) as (Hc & Hl & Hx).
    destruct (format_size_in_range cur Hc) as (s1 & H1).
    destruct (format_size_in_range l Hl) as (s2 & H2).
    destruct (format_size_in_range (cur - l) Hx) as (s3 & H3).
    destruct IH as (vs & Hvs & Hmap & Hall).
    { intros p' cur' l' Hin. apply (Hrange p' cur' l'). now right. }
    cbn [traverse]. unfold make_violation at 1.
    rewrite H1, H2, H3. cbn [bind]. rewrite Hvs. cbn [bind].
    eexists. split; [reflexivity|]. split.
    + simpl. now rewrite Hmap.
    + constructor; [|exact Hall]. simpl. auto.
Qed.

(** X12: what [check_folder_limits] computes.  Its result is, in mapping
    order, the record built for each entry whose measured size exceeds its
    limit, or the first exception that building one raises; an entry at or
    under its limit and an entry whose measurement fails give nothing, and
    the alert history and the watch-list are left as they are.  When the
    size, the limit and the excess of every entry over its limit are byte
    counts a float can hold, the evaluation returns: one violation per such
    entry, with the excess, size minus limit, and the three byte counts as
    [format_size] prints them. *)
Theorem check_folder_limits_spec (fs : filesystem) (st : state) :
  fst (check_folder_limits fs st)
  = traverse make_violation (over_limit_entries fs (monitoring_config st))
  /\ alerts_triggered (snd (check_folder_limits fs st)) = alerts_triggered st
  /\ monitoring_config (snd (check_folder_limits fs st))
     = monitoring_config st
  /\ ((forall p cur l,
          In (p, cur, l) (over_limit_entries fs (monitoring_config st)) ->
          float_range cur /\ float_range l /\ float_range (cur - l)) ->
      exists vs,
        fst (check_folder_limits fs st) = Ok vs
        /\ map (fun v => (folder_path v, current_size v, size_limit v)) vs
           = over_limit_entries fs (monitoring_config st)
        /\ Forall (fun v =>
                     excess_size v = current_size v - size_limit v
                     /\ format_size (current_size v)
                        = Ok (current_size_formatted v)
                     /\ format_size (size_limit v)
                        = Ok (size_limit_formatted v)
                     /\ format_size (excess_size v)
                        = Ok (excess_size_formatted v)) vs).
Proof.
  assert (Hres : fst (check_folder_limits fs st)
                 = traverse make_violation
                            (over_limit_entries fs (monitoring_config st))).
  { unfold check_folder_limits. rewrite check_folder_limits_loop_result.
    now destruct (traverse make_violation
                           (over_limit_entries fs (monitoring_config st))). }
  destruct (check_folder_limits_frame fs st) as (Hcfg & Halerts & _).
  split; [exact Hres|]. split; [exact Halerts|]. split; [exact Hcfg|].
  intros Hrange. rewrite Hres. now apply traverse_make_violation.
Qed.

Lemma check_folder_limits_spec_witness :
  exists vs,
    fst (check_folder_limits
           demo_fs
           (init (Some [("/nonexistent", 5); ("/tmp/big", 1048576);
                        ("/tmp/t", 3072)])))
    = Ok vs
    /\ map (fun v => (folder_path v, current_size v, size_limit v)) vs
       = [("/tmp/big", 2097152, 1048576)].
Proof.
  destruct (check_folder_limits_spec
              demo_fs
              (init (Some [("/nonexistent", 5); ("/tmp/big", 1048576);
                           ("/tmp/t", 3072)])))
    as (_ & _ & _ & Hok).
  assert (Hentries :
            over_limit_entries
              demo_fs
              (monitoring_config
                 (init (Some [("/nonexistent", 5); ("/tmp/big", 1048576);
                              ("/tmp/t", 3072)])))
            = [("/tmp/big", 2097152, 1048576)])
    by (vm_compute; reflexivity).
  rewrite Hentries in Hok.
  destruct Hok as (vs & Hvs & Hmap & _).
  - intros p cur l [Heq|[]]. inversion Heq; subst p cur l.
    unfold float_range.
    split; [|split]; vm_compute; reflexivity.
  - exists vs. split; [exact Hvs | exact Hmap].
Defined.


(** ** The status snapshot *)

Lemma sum_sizes_nonneg (fs : filesystem) (files : list string) :
  0 <= sum_sizes fs files.
Proof.
  unfold sum_sizes. induction files as [|f rest IH]; simpl; [lia|].
  assert (0 <= byte_size fs f)
    by (unfold byte_size; destruct (os_path_getsize fs f); lia).
  lia.
Qed.

Lemma get_folder_size_nonneg (fs : filesystem) (p : string) (n : Z) :
  get_folder_size fs p = Ok n -> 0 <= n.
Proof.
  intros H.
  destruct (os_path_exists fs p) eqn:He;
    [|unfold get_folder_size in H; rewrite He in H; discriminate].
  destruct (os_path_isdir fs p) eqn:Hd;
    [|unfold get_folder_size in H; rewrite He, Hd in H; discriminate].
  rewrite get_folder_size_dir in H by assumption.
  inversion H. apply sum_sizes_nonneg.
Qed.

Lemma truediv_in_range (a b : Z) :
  0 <= a -> float_range a -> 0 < b -> exists q, truediv a b = Ok q.
Proof.
  intros Ha Hr Hb. unfold float_range in Hr. rewrite Z.abs_eq in Hr by lia.
  unfold truediv.
  destruct (Z.eqb_spec b 0) as [Hz|_]; [lia|].
  rewrite Z.sgn_pos, Z.mul_1_r, Z.abs_eq by lia.
  assert (Hlt : a < b * (2 ^ 1024 - 2 ^ 970)).
  { assert (H970 : 0 < 2 ^ 1024 - 2 ^ 970) by reflexivity.
    revert Hr H970. generalize (2 ^ 1024 - 2 ^ 970). intros. nia. }
  pose proof (round_ratio_finite_nonneg a b Ha Hb Hlt) as H.
  destruct (round_ratio a b) as [m e|s|]; simpl in H; try contradiction.
  eauto.
Qed.

(** Within the float range the status loop reports every entry, in mapping
    order, after the reports it was started with. *)
Lemma get_monitoring_status_loop_in_range (fs : filesystem) (items : dict) :
  (forall p l,
      In (p, l) items ->
      float_range l
      /\ forall cur, get_folder_size fs p = Ok cur -> float_range cur) ->
  forall acc,
  exists new,
    get_monitoring_status_loop fs items acc = Ok (acc ++ new)%list
    /\ Forall2 (reports fs) items new.
Proof.
  induction items as [|[p l] rest IH]; intros Hrange acc.
  - exists []. simpl. rewrite app_nil_r. auto.
  - destruct (Hrange p l (or_introl eq_refl)) as (Hl & Hcur).
    assert (Hrest : forall p' l',
               In (p', l') rest ->
               float_range l'
               /\ forall cur, get_folder_size fs p' = Ok cur ->
                              float_range cur).
    { intros p' l' Hin. apply (Hrange p' l'). now right. }
    specialize (IH Hrest).
    cbn [get_monitoring_status_loop]. unfold folder_status.
    destruct (get_folder_size fs p) as [cur|e] eqn:Hsize; cbn [bind].
    + specialize (Hcur cur eq_refl).
      pose proof (get_folder_size_nonneg fs p cur Hsize) as Hpos.
      destruct (format_size_in_range cur Hcur) as (s1 & H1).
      destruct (format_size_in_range l Hl) as (s2 & H2).
      rewrite H1, H2. cbn [bind].
      destruct (Z.gtb_spec l 0) as [Hgt|Hle].
      * destruct (truediv_in_range cur l Hpos Hcur ltac:(lia)) as (q & Hq).
        rewrite Hq. cbn [bind].
        match goal with
        | |- context [(acc ++ [?i])%list] =>
            destruct (IH (acc ++ [i])%list) as (new & Hnew & Hall);
            exists (i :: new)
        end.
        rewrite Hnew, <- app_assoc. split; [reflexivity|].
        constructor; [|exact Hall].
        unfold reports. rewrite Hsize.
        exists s1, s2, (Float (fmul q f100)).
        repeat split; auto; [eauto|lia].
      * cbn [bind].
        match goal with
        | |- context [(acc ++ [?i])%list] =>
            destruct (IH (acc ++ [i])%list) as (new & Hnew & Hall);
            exists (i :: new)
        end.
        rewrite Hnew, <- app_assoc. split; [reflexivity|].
        constructor; [|exact Hall].
        unfold reports. rewrite Hsize.
        exists s1, s2, (Int 0).
        repeat split; auto. lia.
    + destruct (get_folder_size_raises fs p e Hsize) as (msg & ->).
      destruct (IH (acc ++ [FolderError p msg])%list)
        as (new & Hnew & Hall).
      exists (FolderError p msg :: new).
      rewrite Hnew, <- app_assoc. split; [reflexivity|].
      constructor; [|exact Hall].
      unfold reports. rewrite Hsize. reflexivity.
Qed.

(** The part of C8 that holds: [get_monitoring_status] never changes the
    state, and when every limit and every measured size is in the float
    range it returns a snapshot with one report per entry of the watch-list,
    in mapping order: an error descriptor for an entry that cannot be
    measured, and the usage percentage [current_size / size_limit * 100],
    or zero when the limit is not positive, for the others. *)
Lemma get_monitoring_status_in_range (fs : filesystem) (st : state) :
  snd (get_monitoring_status fs st) = st
  /\ ((forall p l,
          In (p, l) (monitoring_config st) ->
          float_range l
          /\ forall cur, get_folder_size fs p = Ok cur -> float_range cur) ->
      exists status,
        fst (get_monitoring_status fs st) = Ok status
        /\ Forall2 (reports fs) (monitoring_config st) (folders status)
        /\ total_folders_monitored status
           = Z.of_nat (List.length (monitoring_config st))
        /\ total_alerts_triggered status
           = Z.of_nat (List.length (alerts_triggered st))).
Proof.
  split; [reflexivity|]. intros Hrange.
  destruct (get_monitoring_status_loop_in_range
              fs (monitoring_config st) Hrange [])
    as (new & Hnew & Hall).
  unfold get_monitoring_status. cbn [fst]. rewrite Hnew. cbn [bind app].
  eexists. split; [reflexivity|]. simpl. auto.
Qed.

(** C8 fails on the code: [get_monitoring_status] raises.  A directory is
    registered with a limit of [10^400] MB; the status then formats the
    stored limit, [format_size] divides it by [1024.0], the integer does not
    fit a float, and the [OverflowError] is not caught by the
    [except OSError] of the loop.  The state is left as it was. *)
Theorem get_monitoring_status_raises_on_huge_limit :
  let registered :=
    add_folder_to_monitor demo_fs "/tmp/empty" (10 ^ 400) (init None) in
  fst registered = true
  /\ monitoring_config (snd registered)
     = [("/tmp/empty", 10 ^ 400 * 1024 * 1024)]
  /\ fst (get_monitoring_status demo_fs (snd registered))
     = Raise (OverflowError "int too large to convert to float")
  /\ snd (get_monitoring_status demo_fs (snd registered)) = snd registered.
Proof.
  cbv zeta. repeat split; vm_compute; reflexivity.
Qed.

(** * Further properties of the engine and of its callers *)

(** ** The watch-list as a dictionary *)

Lemma dict_contains_In (d : dict) (k : string) :
  dict_contains d k = true <-> In k (map fst d).
Proof.
  unfold dict_contains. induction d as [|[k' v] d IH]; simpl.
  - split; [discriminate|contradiction].
  - destruct (String.eqb_spec k' k) as [E|E].
    + split; auto.
    + rewrite IH. split; [auto|]. intros [H|H]; [contradiction|exact H].
Qed.

Lemma dict_contains_false (d : dict) (k : string) :
  dict_contains d k = false <-> ~ In k (map fst d).
Proof.
  rewrite <- dict_contains_In. destruct (dict_contains d k); split; auto.
  - discriminate.
  - intros H. exfalso. now apply H.
Qed.

Lemma dict_del_absent (d : dict) (k : string) :
  dict_contains d k = false -> dict_del d k = d.
Proof.
  unfold dict_contains. induction d as [|[k' v] d IH]; simpl; auto.
  destruct (String.eqb k' k); [discriminate|].
  intros H. now rewrite IH.
Qed.

Lemma dict_del_set (d : dict) (k : string) (v : Z) :
  dict_del (dict_set d k v) k = dict_del d k.
Proof.
  induction d as [|[k' v'] d IH]; simpl.
  - now rewrite String.eqb_refl.
  - destruct (String.eqb k' k) eqn:E; simpl; rewrite E; auto.
    now rewrite IH.
Qed.

Lemma dict_set_set (d : dict) (k : string) (v w : Z) :
  dict_set (dict_set d k v) k w = dict_set d k w.
Proof.
  induction d as [|[k' v'] d IH]; simpl.
  - now rewrite String.eqb_refl.
  - destruct (String.eqb k' k) eqn:E; simpl; rewrite E; auto.
    now rewrite IH.
Qed.

Lemma dict_get_del_other (d : dict) (k q : string) :
  q <> k -> dict_get (dict_del d k) q = dict_get d q.
Proof.
  intros Hq. induction d as [|[k' v'] d IH]; simpl; auto.
  destruct (String.eqb_spec k' k) as [E|E]; simpl.
  - subst k'. destruct (String.eqb_spec k q) as [E'|E']; [congruence|auto].
  - now rewrite IH.
Qed.

(** With unique keys, deleting a key keeps exactly the other entries, in
    their order. *)
Lemma dict_del_filter (d : dict) (k : string) :
  NoDup (map fst d) ->
  dict_del d k = filter (fun entry => negb (String.eqb (fst entry) k)) d.
Proof.
  induction d as [|[k' v'] d IH]; simpl; auto.
  intros Hnd. inversion Hnd as [|? ? Hnotin Hrest]; subst.
  destruct (String.eqb_spec k' k) as [E|E]; simpl.
  - subst k'. rewrite <- IH by assumption.
    symmetry. apply dict_del_absent. now apply dict_contains_false.
  - now rewrite IH.
Qed.

Lemma dict_set_length (d : dict) (k : string) (v : Z) :
  List.length (dict_set d k v)
  = if dict_contains d k then List.length d else S (List.length d).
Proof.
  pose proof (dict_set_keys d k v) as H.
  apply (f_equal (@List.length string)) in H.
  rewrite length_map in H. rewrite H.
  destruct (dict_contains d k); rewrite ?length_app, length_map; simpl; lia.
Qed.

Lemma dict_set_NoDup (d : dict) (k : string) (v : Z) :
  NoDup (map fst d) -> NoDup (map fst (dict_set d k v)).
Proof.
  intros Hnd. rewrite dict_set_keys.
  destruct (dict_contains d k) eqn:E; [exact Hnd|].
  apply dict_contains_false in E.
  apply NoDup_app; [exact Hnd | repeat constructor; auto |].
  intros x Hx [Hk|[]]. subst x. contradiction.
Qed.

Lemma dict_del_NoDup (d : dict) (k : string) :
  NoDup (map fst d) -> NoDup (map fst (dict_del d k)).
Proof.
  intros Hnd. rewrite dict_del_filter by assumption.
  induction d as [|[k' v'] d IH]; simpl; [constructor|].
  inversion Hnd as [|? ? Hnotin Hrest]; subst.
  destruct (negb (String.eqb k' k)); simpl; [|auto].
  constructor; [|auto].
  intros Hin. apply Hnotin.
  apply in_map_iff in Hin. destruct Hin as (entry & Hfst & Hin).
  apply filter_In in Hin. apply in_map_iff. exists entry. tauto.
Qed.

Lemma dict_get_absent (d : dict) (k : string) :
  dict_contains d k = false -> dict_get d k = None.
Proof. unfold dict_contains. now destruct (dict_get d k). Qed.

(** ** Unregistering, and how it composes with registering *)

(** X1: [remove_folder_from_monitor] returns [True] exactly when the path is
    a key of the watch-list.  In both cases what is left is the watch-list
    without the entry of that path, the other entries in their order: the
    path is no longer a key, every other key keeps its limit, one entry is
    gone when the path was present and none otherwise.  The alert history
    is not touched. *)
Theorem remove_folder_from_monitor_spec (folder_path : string) (st : state) :
  NoDup (map fst (monitoring_config st)) ->
  let r := remove_folder_from_monitor folder_path st in
  fst r = dict_contains (monitoring_config st) folder_path
  /\ monitoring_config (snd r)
     = filter (fun entry => negb (String.eqb (fst entry) folder_path))
              (monitoring_config st)
  /\ dict_get (monitoring_config (snd r)) folder_path = None
  /\ (forall other, other <> folder_path ->
         dict_get (monitoring_config (snd r)) other
         = dict_get (monitoring_config st) other)
  /\ List.length (monitoring_config st)
     = ((if fst r then 1 else 0)
        + List.length (monitoring_config (snd r)))%nat
  /\ alerts_triggered (snd r) = alerts_triggered st.
Proof.
  intros Hnd. cbv zeta. unfold remove_folder_from_monitor.
  assert (Hdel : dict_del (monitoring_config st) folder_path
                 = filter (fun entry =>
                             negb (String.eqb (fst entry) folder_path))
                          (monitoring_config st))
    by now apply dict_del_filter.
  assert (Hgone : dict_get (dict_del (monitoring_config st) folder_path)
                           folder_path = None).
  { apply dict_get_absent. apply dict_contains_false.
    rewrite Hdel. intros Hin. apply in_map_iff in Hin.
    destruct Hin as (entry & Hfst & Hin). apply filter_In in Hin.
    destruct Hin as [_ Hneq]. rewrite Hfst, String.eqb_refl in Hneq.
    discriminate. }
  destruct (dict_contains (monitoring_config st) folder_path) eqn:Hc; simpl.
  - repeat split; auto.
    + intros other Ho. now apply dict_get_del_other.
    + clear Hdel Hgone Hnd. unfold dict_contains in Hc.
      induction (monitoring_config st) as [|[k v] d IH]; simpl in *;
        [discriminate|].
      destruct (String.eqb k folder_path); simpl; [reflexivity|].
      now rewrite IH.
  - rewrite <- Hdel, dict_del_absent by assumption.
    repeat split; auto. now apply dict_get_absent.
Qed.

Lemma remove_folder_from_monitor_spec_witness :
  let st := init (Some [("/tmp/t", 5); ("/tmp/big", 7); ("/tmp/empty", 9)]) in
  fst (remove_folder_from_monitor "/tmp/big" st) = true
  /\ monitoring_config (snd (remove_folder_from_monitor "/tmp/big" st))
     = [("/tmp/t", 5); ("/tmp/empty", 9)]
  /\ fst (remove_folder_from_monitor "/elsewhere" st) = false.
Proof.
  cbv zeta.
  assert (Hnd : NoDup (map fst (monitoring_config
                                  (init (Some [("/tmp/t", 5); ("/tmp/big", 7);
                                               ("/tmp/empty", 9)]))))).
  { simpl. repeat constructor; simpl; intuition discriminate. }
  destruct (remove_folder_from_monitor_spec "/tmp/big" _ Hnd)
    as (Hret & Hcfg & _).
  destruct (remove_folder_from_monitor_spec "/elsewhere" _ Hnd)
    as (Hret' & _).
  split; [exact Hret|]. split; [exact Hcfg | exact Hret'].
Defined.

(** X2: registering an existing directory and then unregistering it leaves
    the watch-list the unregistration alone would leave: the watch-list is
    back as it was when the path was not watched before, and a limit the
    path had before is not restored.  Both calls return [True]. *)
Theorem register_then_unregister
        (fs : filesystem) (folder_path : string) (size_limit_mb : Z)
        (st : state) :
  os_path_exists fs folder_path = true ->
  os_path_isdir fs folder_path = true ->
  let registered := add_folder_to_monitor fs folder_path size_limit_mb st in
  let removed := remove_folder_from_monitor folder_path (snd registered) in
  fst registered = true
  /\ fst removed = true
  /\ monitoring_config (snd removed)
     = dict_del (monitoring_config st) folder_path
  /\ (dict_contains (monitoring_config st) folder_path = false ->
      monitoring_config (snd removed) = monitoring_config st)
  /\ alerts_triggered (snd removed) = alerts_triggered st.
Proof.
  intros He Hd. cbv zeta.
  unfold add_folder_to_monitor, remove_folder_from_monitor.
  rewrite He, Hd. simpl.
  assert (Hc : dict_contains
                 (dict_set (monitoring_config st) folder_path
                           (size_limit_mb * 1024 * 1024)) folder_path
               = true).
  { unfold dict_contains. now rewrite dict_get_set_same. }
  rewrite Hc. simpl. rewrite dict_del_set.
  repeat split; auto. intros Habs. now apply dict_del_absent.
Qed.

Lemma register_then_unregister_witness :
  let st := init (Some [("/tmp/t", 5)]) in
  monitoring_config
    (snd (remove_folder_from_monitor
            "/tmp/big"
            (snd (add_folder_to_monitor demo_fs "/tmp/big" 3 st))))
  = [("/tmp/t", 5)].
Proof.
  cbv zeta.
  destruct (register_then_unregister
              demo_fs "/tmp/big" 3 (init (Some [("/tmp/t", 5)]))
              eq_refl eq_refl)
    as (_ & _ & _ & Hback & _).
  exact (Hback eq_refl).
Defined.

(** X3: registering an existing directory twice keeps one entry for it: the
    watch-list is the one the second registration alone would give, so the
    last limit wins, and a path that is already watched keeps its place and
    the watch-list its length. *)
Theorem register_twice
        (fs : filesystem) (folder_path : string) (first second : Z)
        (st : state) :
  os_path_exists fs folder_path = true ->
  os_path_isdir fs folder_path = true ->
  let once := snd (add_folder_to_monitor fs folder_path second st) in
  let twice :=
    snd (add_folder_to_monitor
           fs folder_path second
           (snd (add_folder_to_monitor fs folder_path first st))) in
  monitoring_config twice = monitoring_config once
  /\ dict_get (monitoring_config twice) folder_path
     = Some (second * 1024 * 1024)
  /\ (dict_contains (monitoring_config st) folder_path = true ->
      map fst (monitoring_config twice) = map fst (monitoring_config st)
      /\ List.length (monitoring_config twice)
         = List.length (monitoring_config st)).
Proof.
  intros He Hd. cbv zeta. unfold add_folder_to_monitor.
  rewrite He, Hd. simpl. rewrite dict_set_set.
  split; [reflexivity|]. split; [apply dict_get_set_same|].
  intros Hc. rewrite dict_set_keys, dict_set_length, Hc. auto.
Qed.

Lemma register_twice_witness :
  monitoring_config
    (snd (add_folder_to_monitor
            demo_fs "/tmp/big" 2
            (snd (add_folder_to_monitor demo_fs "/tmp/big" 7 (init None)))))
  = [("/tmp/big", 2097152)].
Proof.
  destruct (register_twice demo_fs "/tmp/big" 7 2 (init None)
                           eq_refl eq_refl)
    as (Hsame & _).
  exact Hsame.
Defined.

(** ** What the operations leave alone *)

Lemma monitor_once_config (fs : filesystem) (clock : wallclock) (st : state) :
  monitoring_config (snd (monitor_once fs clock st)) = monitoring_config st.
Proof.
  unfold monitor_once.
  destruct (monitoring_config st) as [|entry rest] eqn:Hcfg.
  - simpl. exact Hcfg.
  - pose proof (check_folder_limits_frame fs st) as Hframe.
    destruct (check_folder_limits fs st) as [[vs|e] st1];
      simpl in Hframe; destruct Hframe as (Hc & _).
    + destruct vs as [|v vs].
      * simpl. congruence.
      * cbv beta iota. cbn [snd].
        match goal with
        | |- context [fold_left ?f ?l ?s] =>
            destruct (trigger_alerts_append clock l s) as (new & _ & _ & Hk)
        end.
        rewrite Hk. simpl. congruence.
    + simpl. congruence.
Qed.

(** X4: an operation changes at most the entry of the path it is given.
    Measuring, evaluating, checking once, raising an alert and taking the
    status leave the whole watch-list as it is; registering or unregistering
    a path leaves the limit of every other path as it is; and no operation
    makes a path appear twice. *)
Theorem run_changes_only_its_target
        (fs : filesystem) (clock : wallclock) (op : operation) (st : state) :
  (forall other,
      targets op other = false ->
      dict_get (monitoring_config (run fs clock op st)) other
      = dict_get (monitoring_config st) other)
  /\ match op with
     | OpRegister _ _ | OpUnregister _ => True
     | _ => monitoring_config (run fs clock op st) = monitoring_config st
     end
  /\ (NoDup (map fst (monitoring_config st)) ->
      NoDup (map fst (monitoring_config (run fs clock op st)))).
Proof.
  destruct op as [p mb|p|p| | |v|]; cbn [run targets].
  - unfold add_folder_to_monitor.
    destruct (os_path_exists fs p); simpl; [|auto].
    destruct (os_path_isdir fs p); simpl; [|auto].
    split; [|split; [exact I|apply dict_set_NoDup]].
    intros other Ho. apply dict_get_set_other.
    intros ->. now rewrite String.eqb_refl in Ho.
  - unfold remove_folder_from_monitor.
    destruct (dict_contains (monitoring_config st) p); simpl; [|auto].
    split; [|split; [exact I|apply dict_del_NoDup]].
    intros other Ho. apply dict_get_del_other.
    intros ->. now rewrite String.eqb_refl in Ho.
  - destruct (get_folder_size fs p); auto.
  - destruct (check_folder_limits_frame fs st) as (Hc & _).
    rewrite Hc. auto.
  - rewrite monitor_once_config. auto.
  - destruct (trigger_alert_appends clock v st) as (a & _ & _ & Hc).
    rewrite Hc. auto.
  - simpl. auto.
Qed.

Lemma run_changes_only_its_target_witness :
  let st := init (Some [("/tmp/t", 5); ("/tmp/big", 7)]) in
  dict_get (monitoring_config
              (run demo_fs demo_clock (OpUnregister "/tmp/t") st)) "/tmp/big"
  = Some 7
  /\ NoDup (map fst (monitoring_config
                       (run demo_fs demo_clock (OpRegister "/tmp/empty" 1)
                            st))).
Proof.
  cbv zeta.
  destruct (run_changes_only_its_target
              demo_fs demo_clock (OpUnregister "/tmp/t")
              (init (Some [("/tmp/t", 5); ("/tmp/big", 7)])))
    as (Hother & _).
  destruct (run_changes_only_its_target
              demo_fs demo_clock (OpRegister "/tmp/empty" 1)
              (init (Some [("/tmp/t", 5); ("/tmp/big", 7)])))
    as (_ & _ & Hnd).
  split.
  - exact (Hother "/tmp/big" eq_refl).
  - apply Hnd. simpl. repeat constructor; simpl; intuition discriminate.
Defined.

(** ** The status snapshot, whenever it is returned *)

Lemma truediv_raises (a b : Z) (e : exn) :
  truediv a b = Raise e -> forall msg, e <> OSError msg.
Proof.
  unfold truediv. destruct (b =? 0).
  - intros H msg. inversion H. discriminate.
  - destruct (round_ratio (a * Z.sgn b) (Z.abs b)); intros H msg;
      inversion H; discriminate.
Qed.

Lemma format_size_raises (n : Z) (e : exn) :
  format_size n = Raise e -> forall msg, e <> OSError msg.
Proof.
  intros H msg.
  destruct (format_size_cases n) as [(x & s & _ & Hs)|[_ Hr]]; congruence.
Qed.

(** The [try] block of the status loop returns a report with the measured
    size and the over-limit flag, or lets through the failure of the
    measurement, or fails with an exception that is not an [OSError]. *)
Lemma folder_status_cases (fs : filesystem) (p : string) (l : Z) :
  match get_folder_size fs p with
  | Raise e => folder_status fs p l = Raise e
  | Ok cur =>
      (exists info, folder_status fs p l = Ok info /\ reports fs (p, l) info)
      \/ (exists e, folder_status fs p l = Raise e
                    /\ forall msg, e <> OSError msg)
  end.
Proof.
  unfold folder_status, reports.
  destruct (get_folder_size fs p) as [cur|e] eqn:Hsize; cbn [bind];
    [|reflexivity].
  destruct (format_size cur) as [s1|e1] eqn:H1; cbn [bind];
    [|right; eexists; split; [reflexivity|now apply (format_size_raises cur)]].
  destruct (format_size l) as [s2|e2] eqn:H2; cbn [bind];
    [|right; eexists; split; [reflexivity|now apply (format_size_raises l)]].
  destruct (Z.gtb_spec l 0) as [Hgt|Hle].
  - destruct (truediv cur l) as [q|e3] eqn:H3; cbn [bind].
    + left. eexists. split; [reflexivity|].
      exists s1, s2, (Float (fmul q f100)).
      repeat split; auto; [eauto|lia].
    + right. eexists. split; [reflexivity|now apply (truediv_raises cur l)].
  - cbn [bind]. left. eexists. split; [reflexivity|].
    exists s1, s2, (Int 0). repeat split; auto. lia.
Qed.

Lemma get_monitoring_status_loop_reports (fs : filesystem) (items : dict) :
  forall acc res,
    get_monitoring_status_loop fs items acc = Ok res ->
    exists new, res = (acc ++ new)%list /\ Forall2 (reports fs) items new.
Proof.
  induction items as [|[p l] rest IH]; intros acc res Hres.
  - simpl in Hres. inversion Hres. exists []. now rewrite app_nil_r.
  - cbn [get_monitoring_status_loop] in Hres.
    pose proof (folder_status_cases fs p l) as Hcases.
    destruct (get_folder_size fs p) as [cur|e] eqn:Hsize.
    + destruct Hcases as [(info & Hinfo & Hrep)|(e & He & Hnot)].
      * rewrite Hinfo in Hres.
        destruct (IH _ _ Hres) as (new & -> & Hall).
        exists (info :: new). rewrite <- app_assoc. split; [reflexivity|].
        constructor; assumption.
      * rewrite He in Hres.
        destruct e as [msg|msg|msg]; try discriminate.
        exfalso. now apply (Hnot msg).
    + rewrite Hcases in Hres.
      destruct (get_folder_size_raises fs p e Hsize) as (msg & ->).
      destruct (IH _ _ Hres) as (new & -> & Hall).
      exists (FolderError p msg :: new). rewrite <- app_assoc.
      split; [reflexivity|].
      constructor; [|assumption].
      unfold reports. now rewrite Hsize.
Qed.

Lemma reports_path (fs : filesystem) (entry : string * Z)
      (info : folder_info) :
  reports fs entry info -> info_path info = fst entry.
Proof.
  destruct entry as [p l]. unfold reports.
  destruct (get_folder_size fs p).
  - intros (s1 & s2 & u & _ & _ & _ & _ & ->). reflexivity.
  - intros ->. reflexivity.
Qed.

(** X5: whenever [get_monitoring_status] returns a snapshot, the snapshot
    has exactly one report per entry of the watch-list, in mapping order and
    under the same paths: an error descriptor carrying the message of the
    [OSError] for an entry that cannot be measured, and for the others the
    measured size, the limit, both as [format_size] prints them, the usage
    percentage (zero when the limit is not positive) and the over-limit
    flag.  The two totals are the number of entries and the number of
    alerts recorded. *)
Theorem get_monitoring_status_returned
        (fs : filesystem) (st : state) (status : Status) :
  fst (get_monitoring_status fs st) = Ok status ->
  Forall2 (reports fs) (monitoring_config st) (folders status)
  /\ map info_path (folders status) = map fst (monitoring_config st)
  /\ total_folders_monitored status
     = Z.of_nat (List.length (folders status))
  /\ total_alerts_triggered status
     = Z.of_nat (List.length (alerts_triggered st)).
Proof.
  unfold get_monitoring_status. cbn [fst].
  destruct (get_monitoring_status_loop fs (monitoring_config st) [])
    as [res|e] eqn:Hloop; cbn [bind]; [|discriminate].
  intros H. inversion H; subst status; clear H.
  cbn [folders total_folders_monitored total_alerts_triggered].
  destruct (get_monitoring_status_loop_reports fs _ _ _ Hloop)
    as (new & -> & Hall).
  cbn [app].
  assert (Hpaths : map info_path new = map fst (monitoring_config st)).
  { clear Hloop. induction Hall as [|entry info items infos Hrep _ IH];
      simpl; [reflexivity|].
    now rewrite IH, (reports_path fs entry info Hrep). }
  repeat split; auto.
  apply (f_equal (@List.length string)) in Hpaths.
  rewrite !length_map in Hpaths. now rewrite Hpaths.
Qed.

Lemma get_monitoring_status_returned_witness :
  exists status,
    fst (get_monitoring_status
           demo_fs (init (Some [("/nonexistent", 1024); ("/tmp/t", 10485760)])))
    = Ok status
    /\ map info_path (folders status) = ["/nonexistent"; "/tmp/t"]
    /\ total_folders_monitored status = 2.
Proof.
  destruct (fst (get_monitoring_status
                   demo_fs
                   (init (Some [("/nonexistent", 1024);
                                ("/tmp/t", 10485760)]))))
    as [status|e] eqn:Hstatus; [|vm_compute in Hstatus; discriminate].
  exists status.
  destruct (get_monitoring_status_returned _ _ _ Hstatus)
    as (_ & Hpaths & Htotal & _).
  split; [reflexivity|]. split; [exact Hpaths|].
  rewrite Htotal.
  apply (f_equal (@List.length string)) in Hpaths.
  rewrite length_map in Hpaths. now rewrite Hpaths.
Defined.

(** ** Evaluation and status side by side *)

Lemma check_folder_limits_result (fs : filesystem) (st : state) :
  fst (check_folder_limits fs st)
  = traverse make_violation (over_limit_entries fs (monitoring_config st)).
Proof.
  unfold check_folder_limits. rewrite check_folder_limits_loop_result.
  now destruct (traverse make_violation
                         (over_limit_entries fs (monitoring_config st))).
Qed.

Lemma traverse_make_violation_keys (entries : list (string * Z * Z)) :
  forall vs,
    traverse make_violation entries = Ok vs ->
    map (fun v => (folder_path v, current_size v, size_limit v)) vs = entries.
Proof.
  induction entries as [|[[p cur] l] rest IH]; intros vs Hvs.
  - simpl in Hvs. inversion Hvs. reflexivity.
  - cbn [traverse] in Hvs. unfold make_violation at 1 in Hvs.
    destruct (format_size cur); cbn [bind] in Hvs; [|discriminate].
    destruct (format_size l); cbn [bind] in Hvs; [|discriminate].
    destruct (format_size (cur - l)); cbn [bind] in Hvs; [|discriminate].
    destruct (traverse make_violation rest) as [vs'|e]; cbn [bind] in Hvs;
      [|discriminate].
    inversion Hvs; subst vs. simpl. now rewrite (IH vs' eq_refl).
Qed.

Lemma reports_over_limit (fs : filesystem) (items : dict)
      (infos : list folder_info) :
  Forall2 (reports fs) items infos ->
  map info_path (filter info_over_limit infos)
  = map (fun entry => fst (fst entry)) (over_limit_entries fs items).
Proof.
  induction 1 as [|[p l] info items infos Hrep _ IH]; [reflexivity|].
  cbn [over_limit_entries flat_map filter].
  fold (over_limit_entries fs items).
  rewrite map_app, <- IH. unfold reports in Hrep.
  destruct (get_folder_size fs p) as [cur|e].
  - destruct Hrep as (s1 & s2 & u & _ & _ & _ & _ & ->).
    cbn [info_over_limit]. destruct (cur >? l); reflexivity.
  - subst info. reflexivity.
Qed.

(** X6: the status and the evaluation agree.  When both return on the same
    state, the folders the status flags as over their limit are, in the
    same order, the folders of the violations the evaluation returns; in
    particular there are as many flags as violations. *)
Theorem status_flags_are_the_violations
        (fs : filesystem) (st : state) (status : Status)
        (vs : list Violation) :
  fst (get_monitoring_status fs st) = Ok status ->
  fst (check_folder_limits fs st) = Ok vs ->
  map info_path (filter info_over_limit (folders status))
  = map folder_path vs
  /\ List.length (filter info_over_limit (folders status)) = List.length vs.
Proof.
  intros Hstatus Heval.
  assert (Hpaths : map info_path (filter info_over_limit (folders status))
                   = map folder_path vs).
  { unfold get_monitoring_status in Hstatus. cbn [fst] in Hstatus.
    destruct (get_monitoring_status_loop fs (monitoring_config st) [])
      as [res|e] eqn:Hloop; cbn [bind] in Hstatus; [|discriminate].
    inversion Hstatus; subst status; clear Hstatus. cbn [folders].
    destruct (get_monitoring_status_loop_reports fs _ _ _ Hloop)
      as (new & -> & Hall).
    cbn [app]. rewrite (reports_over_limit fs _ _ Hall).
    rewrite check_folder_limits_result in Heval.
    rewrite <- (traverse_make_violation_keys _ _ Heval).
    rewrite map_map. reflexivity. }
  split; [exact Hpaths|].
  apply (f_equal (@List.length string)) in Hpaths.
  now rewrite !length_map in Hpaths.
Qed.

Lemma status_flags_are_the_violations_witness :
  exists status vs,
    fst (get_monitoring_status
           demo_fs (init (Some [("/tmp/t", 10485760); ("/tmp/big", 1048576)])))
    = Ok status
    /\ map folder_path vs = ["/tmp/big"]
    /\ map info_path (filter info_over_limit (folders status))
       = map folder_path vs.
Proof.
  destruct (fst (get_monitoring_status
                   demo_fs
                   (init (Some [("/tmp/t", 10485760);
                                ("/tmp/big", 1048576)]))))
    as [status|e] eqn:Hstatus; [|vm_compute in Hstatus; discriminate].
  destruct (fst (check_folder_limits
                   demo_fs
                   (init (Some [("/tmp/t", 10485760);
                                ("/tmp/big", 1048576)]))))
    as [vs|e] eqn:Heval; [|vm_compute in Heval; discriminate].
  exists status, vs.
  destruct (status_flags_are_the_violations _ _ _ _ Hstatus Heval)
    as (Hpaths & _).
  split; [reflexivity|]. split; [|exact Hpaths].
  vm_compute in Heval. inversion Heval. reflexivity.
Defined.

(** ** What an evaluation prints *)

Lemma check_folder_limits_loop_stdout (fs : filesystem) (items : dict) :
  forall acc st vs st',
    check_folder_limits_loop fs items acc st = (Ok vs, st') ->
    stdout st' = (stdout st ++ measurement_errors fs items)%list.
Proof.
  induction items as [|[p l] rest IH]; intros acc st vs st' Hloop.
  - simpl in Hloop. inversion Hloop. simpl. now rewrite app_nil_r.
  - cbn [check_folder_limits_loop] in Hloop.
    rewrite check_entry_unfold in Hloop.
    cbn [measurement_errors flat_map]. fold (measurement_errors fs rest).
    destruct (get_folder_size fs p) as [cur|e] eqn:Hsize.
    + cbn [app]. destruct (cur >? l).
      * destruct (make_violation (p, cur, l)) as [v|e] eqn:Hv;
          cbn [bind] in Hloop.
        -- now apply IH in Hloop.
        -- destruct (make_violation_raises _ _ Hv) as (msg & ->).
           discriminate.
      * now apply IH in Hloop.
    + destruct (get_folder_size_raises fs p e Hsize) as (msg & ->).
      apply IH in Hloop. rewrite Hloop. simpl.
      now rewrite <- app_assoc.
Qed.

(** X7: an evaluation that returns has printed one diagnostic line for each
    entry of the watch-list whose measurement failed, naming the folder and
    giving the message of the failure, in mapping order, and nothing else:
    no line for an entry within its limit, none for a violation. *)
Theorem check_folder_limits_diagnostics
        (fs : filesystem) (st st' : state) (vs : list Violation) :
  check_folder_limits fs st = (Ok vs, st') ->
  stdout st'
  = (stdout st ++ measurement_errors fs (monitoring_config st))%list
  /\ (forall p l,
         In (p, l) (monitoring_config st) ->
         os_path_exists fs p = false ->
         In ("Error checking folder '" ++ p ++ "': Folder '" ++ p
             ++ "' does not exist.")
            (measurement_errors fs (monitoring_config st))).
Proof.
  intros Heval. split.
  - now apply (check_folder_limits_loop_stdout fs _ [] st vs st').
  - intros p l Hin Hmissing. unfold measurement_errors.
    apply in_flat_map. exists (p, l). split; [exact Hin|].
    unfold get_folder_size. rewrite Hmissing. simpl. now left.
Qed.

Lemma check_folder_limits_diagnostics_witness :
  exists st',
    snd (check_folder_limits
           demo_fs (init (Some [("/nonexistent", 5); ("/tmp/big", 1048576)])))
    = st'
    /\ stdout st'
       = ["Error checking folder '/nonexistent': Folder '/nonexistent' does not exist."].
Proof.
  destruct (check_folder_limits
              demo_fs
              (init (Some [("/nonexistent", 5); ("/tmp/big", 1048576)])))
    as [[vs|e] st'] eqn:Heval; [|vm_compute in Heval; discriminate].
  exists st'. split; [reflexivity|].
  destruct (check_folder_limits_diagnostics _ _ _ _ Heval) as (Hout & _).
  rewrite Hout. reflexivity.
Defined.

(** ** What a check prints and records *)

(** An alert is printed with the message it is recorded with. *)
Lemma trigger_alert_printed (clock : wallclock) (v : Violation) (st : state) :
  exists a,
    alerts_triggered (trigger_alert clock v st)
    = (alerts_triggered st ++ [a])%list
    /\ violation a = v
    /\ stdout (trigger_alert clock v st) = (stdout st ++ [message a])%list.
Proof. eexists. unfold trigger_alert. simpl. repeat split. Qed.

Lemma trigger_alerts_printed (clock : wallclock) (vs : list Violation) :
  forall st,
  exists new,
    alerts_triggered
      (fold_left (fun st v => trigger_alert clock v st) vs st)
    = (alerts_triggered st ++ new)%list
    /\ map violation new = vs
    /\ stdout (fold_left (fun st v => trigger_alert clock v st) vs st)
       = (stdout st ++ map message new)%list.
Proof.
  induction vs as [|v vs IH]; intros st; simpl.
  - exists []. simpl. now rewrite !app_nil_r.
  - destruct (trigger_alert_printed clock v st) as (a & Ha & Hv & Hp).
    destruct (IH (trigger_alert clock v st)) as (new & Hnew & Hmap & Hout).
    exists (a :: new). rewrite Hnew, Hout, Ha, Hp, <- !app_assoc. simpl.
    rewrite Hmap, Hv. auto.
Qed.

Lemma monitor_once_alerts (fs : filesystem) (clock : wallclock)
      (st : state) (vs : list Violation) :
  fst (check_folder_limits fs st) = Ok vs ->
  exists new,
    alerts_triggered (snd (monitor_once fs clock st))
    = (alerts_triggered st ++ new)%list
    /\ map violation new = vs
    /\ fst (monitor_once fs clock st)
       = Ok (match vs with [] => false | _ :: _ => true end).
Proof.
  intros Heval. unfold monitor_once.
  destruct (monitoring_config st) as [|entry rest] eqn:Hcfg.
  - rewrite check_folder_limits_result, Hcfg in Heval. simpl in Heval.
    inversion Heval; subst vs. exists []. simpl. now rewrite app_nil_r.
  - pose proof (check_folder_limits_frame fs st) as Hframe.
    destruct (check_folder_limits fs st) as [r st1].
    simpl in Heval, Hframe. subst r. destruct Hframe as (_ & Halerts & _).
    destruct vs as [|v vs].
    + exists []. simpl. rewrite app_nil_r. auto.
    + cbv beta iota. cbn [snd fst].
      match goal with
      | |- context [fold_left ?f ?l ?s] =>
          destruct (trigger_alerts_printed clock l s) as (new & Hnew & Hmap & _)
      end.
      exists new. rewrite Hnew. simpl. rewrite Halerts. auto.
Qed.

(** X8: what [monitor_once] prints.  On an empty watch-list it prints one
    line saying that no folder is configured.  Otherwise, when the
    evaluation returns, it prints the diagnostics of the evaluation and then
    either the line saying that all folders are within their limits, when
    there is no violation, or a line giving the number of violations
    followed by the message of each alert it records, in the order of the
    history: every alert recorded is printed, with the message stored. *)
Theorem monitor_once_prints
        (fs : filesystem) (clock : wallclock) (st : state) :
  (monitoring_config st = [] ->
   stdout (snd (monitor_once fs clock st))
   = (stdout st ++ ["No folders configured for monitoring."])%list)
  /\ (monitoring_config st <> [] ->
      forall vs,
        fst (check_folder_limits fs st) = Ok vs ->
        exists new,
          alerts_triggered (snd (monitor_once fs clock st))
          = (alerts_triggered st ++ new)%list
          /\ map violation new = vs
          /\ stdout (snd (monitor_once fs clock st))
             = (stdout st
                ++ measurement_errors fs (monitoring_config st)
                ++ match vs with
                   | [] =>
                       ["All monitored folders are within their size limits."]
                   | _ :: _ =>
                       ("Found " ++ str_int (Z.of_nat (List.length vs))
                        ++ " folder size violation(s):")%string
                       :: map message new
                   end)%list).
Proof.
  split.
  - intros Hempty. unfold monitor_once. now rewrite Hempty.
  - intros Hne vs Heval. unfold monitor_once.
    destruct (monitoring_config st) as [|entry rest] eqn:Hcfg;
      [congruence|]. rewrite <- Hcfg. clear Hne.
    pose proof (check_folder_limits_frame fs st) as Hframe.
    destruct (check_folder_limits fs st) as [r st1] eqn:Hrun.
    simpl in Heval, Hframe. subst r. destruct Hframe as (_ & Halerts & _).
    pose proof (check_folder_limits_loop_stdout fs _ [] st vs st1 Hrun)
      as Hout.
    destruct vs as [|v vs].
    + exists []. simpl. rewrite app_nil_r, Hout, <- app_assoc. auto.
    + cbv beta iota. cbn [snd].
      match goal with
      | |- context [fold_left ?f ?l ?s] =>
          destruct (trigger_alerts_printed clock l s)
            as (new & Hnew & Hmap & Hprinted)
      end.
      exists new. rewrite Hnew, Hprinted. simpl. rewrite Halerts, Hout.
      rewrite <- !app_assoc. auto.
Qed.

Lemma monitor_once_prints_witness :
  stdout (snd (monitor_once demo_fs demo_clock (init None)))
  = ["No folders configured for monitoring."]
  /\ exists new,
       alerts_triggered
         (snd (monitor_once demo_fs demo_clock
                            (init (Some [("/tmp/big", 1048576)]))))
       = new
       /\ List.length new = 1%nat.
Proof.
  destruct (monitor_once_prints demo_fs demo_clock (init None)) as [Hempty _].
  split; [exact (Hempty eq_refl)|].
  assert (Hne : monitoring_config (init (Some [("/tmp/big", 1048576)]))
                <> []) by discriminate.
  destruct (fst (check_folder_limits
                   demo_fs (init (Some [("/tmp/big", 1048576)]))))
    as [vs|e] eqn:Heval; [|vm_compute in Heval; discriminate].
  destruct (monitor_once_prints demo_fs demo_clock
                                (init (Some [("/tmp/big", 1048576)])))
    as [_ Hsome].
  destruct (Hsome Hne vs Heval) as (new & Hnew & Hmap & _).
  exists new. split; [exact Hnew|].
  apply (f_equal (@List.length Violation)) in Hmap.
  rewrite length_map in Hmap. rewrite Hmap.
  vm_compute in Heval. inversion Heval. reflexivity.
Defined.

(** X9: checks repeat their alerts.  On a file system that does not change,
    when the evaluation of the watch-list returns the violations [vs], each
    of [k] consecutive calls of [monitor_once] records one alert per
    violation again: the history grows by [k] copies of [vs], in order, and
    the watch-list is as it was. *)
Theorem repeated_checks_repeat_alerts
        (fs : filesystem) (clock : wallclock) (vs : list Violation)
        (k : nat) :
  forall st,
    fst (check_folder_limits fs st) = Ok vs ->
    let st' := run_all fs clock (repeat OpCheckOnce k) st in
    (exists new,
        alerts_triggered st' = (alerts_triggered st ++ new)%list
        /\ map violation new = List.concat (repeat vs k))
    /\ List.length (alerts_triggered st')
       = (List.length (alerts_triggered st) + k * List.length vs)%nat
    /\ monitoring_config st' = monitoring_config st.
Proof.
  induction k as [|k IH]; intros st Heval; cbv zeta.
  - simpl. split; [exists []; now rewrite app_nil_r|]. split; [lia|auto].
  - cbn [repeat run_all fold_left run].
    destruct (monitor_once_alerts fs clock st vs Heval)
      as (new1 & Hnew1 & Hmap1 & _).
    pose proof (monitor_once_config fs clock st) as Hcfg1.
    assert (Heval1 : fst (check_folder_limits
                            fs (snd (monitor_once fs clock st))) = Ok vs).
    { rewrite check_folder_limits_result, Hcfg1.
      now rewrite <- check_folder_limits_result. }
    specialize (IH _ Heval1). cbv zeta in IH. unfold run_all in IH.
    destruct IH as ((new & Hnew & Hmap) & Hlen & Hcfg).
    split; [|split].
    + exists (new1 ++ new)%list.
      rewrite Hnew, Hnew1, <- app_assoc. split; [reflexivity|].
      rewrite map_app, Hmap1, Hmap. reflexivity.
    + rewrite Hlen, Hnew1, length_app.
      apply (f_equal (@List.length Violation)) in Hmap1.
      rewrite length_map in Hmap1. lia.
    + now rewrite Hcfg.
Qed.

Lemma repeated_checks_repeat_alerts_witness :
  List.length
    (alerts_triggered
       (run_all demo_fs demo_clock (repeat OpCheckOnce 3)
                (init (Some [("/tmp/big", 1048576)]))))
  = 3%nat.
Proof.
  destruct (fst (check_folder_limits
                   demo_fs (init (Some [("/tmp/big", 1048576)]))))
    as [vs|e] eqn:Heval; [|vm_compute in Heval; discriminate].
  destruct (repeated_checks_repeat_alerts demo_fs demo_clock vs 3 _ Heval)
    as (_ & Hlen & _).
  rewrite Hlen. vm_compute in Heval. inversion Heval. reflexivity.
Defined.

(** ** The domain of [format_size] *)

(** A quotient of at least [n - 1/2], for an even [n], rounds to at least
    [n]. *)
Lemma round_half_even_above_half (p q n : Z) :
  0 < q -> Z.even n = true -> (2 * n - 1) * q <= 2 * p ->
  n <= round_half_even p q.
Proof.
  intros Hq Heven Hp. unfold round_half_even.
  pose proof (Z.div_mod p q ltac:(lia)) as Hdm.
  pose proof (Z.mod_pos_bound p q Hq) as Hr.
  assert (Hd : n - 1 <= p / q).
  { apply Z.div_le_lower_bound; [lia|]. nia. }
  destruct (Z.eq_dec (p / q) (n - 1)) as [E|E].
  - assert (Hodd : Z.even (p / q) = false).
    { rewrite E. replace (n - 1) with (Z.pred n) by lia.
      rewrite Z.even_pred, <- Z.negb_even, Heven. reflexivity. }
    rewrite Hodd.
    destruct (Z.compare_spec (2 * (p mod q)) q) as [He|Hl|Hg];
      try lia; try (exfalso; nia).
  - destruct (2 * (p mod q) ?= q); [destruct (Z.even (p / q))| |]; lia.
Qed.

(** From [2^1024 - 2^970] on, an integer rounds to infinity. *)
Lemma round_ratio_overflow (n : Z) :
  2 ^ 1024 - 2 ^ 970 <= n -> round_ratio n 1 = Inf false.
Proof.
  intros Hn.
  assert (H1023 : 2 ^ 1023 <= 2 ^ 1024 - 2 ^ 970)
    by (vm_compute; discriminate).
  assert (Hpos : 0 < 2 ^ 1023) by reflexivity.
  unfold round_ratio.
  destruct (Z.eqb_spec n 0) as [Hz|_]; [lia|].
  rewrite (Z.abs_eq n), ilog2_ratio_one by lia.
  assert (Hk : 1023 <= Z.log2 n) by (apply Z.log2_le_pow2; lia).
  replace (Z.max (Z.log2 n - 52) (-1074)) with (Z.log2 n - 52) by lia.
  set (e := Z.log2 n - 52).
  assert (He : 971 <= e) by (unfold e; lia).
  destruct (Z.leb_spec 0 e) as [_|Hneg]; [|lia].
  rewrite Z.mul_1_l, Bool.andb_true_l.
  pose proof (pow2_pos e ltac:(lia)) as Hpe.
  pose proof (Z.log2_spec n ltac:(lia)) as [Hlow _].
  assert (Hsplit : 2 ^ Z.log2 n = 2 ^ 52 * 2 ^ e).
  { rewrite <- Z.pow_add_r by lia. f_equal. unfold e. lia. }
  set (m := round_half_even n (2 ^ e)).
  assert (Hover : 2 ^ 1024 <= Z.abs m * 2 ^ e).
  { destruct (Z.eq_dec e 971) as [E|E].
    - assert (Hm : 2 ^ 53 <= m).
      { apply round_half_even_above_half; [exact Hpe|reflexivity|].
        rewrite E.
        replace ((2 * 2 ^ 53 - 1) * 2 ^ 971)
          with (2 * (2 ^ 1024 - 2 ^ 970)) by reflexivity.
        lia. }
      rewrite Z.abs_eq by lia. rewrite E in *.
      replace (2 ^ 1024) with (2 ^ 53 * 2 ^ 971) by reflexivity.
      apply Z.mul_le_mono_nonneg_r; lia.
    - assert (Hm : 2 ^ 52 <= m).
      { apply round_half_even_ge; [exact Hpe|]. lia. }
      rewrite Z.abs_eq by lia.
      assert (Hle : 2 ^ 972 <= 2 ^ e) by (apply Z.pow_le_mono_r; lia).
      replace (2 ^ 1024) with (2 ^ 52 * 2 ^ 972) by reflexivity.
      assert (0 < 2 ^ 52) by reflexivity.
      assert (0 < 2 ^ 972) by reflexivity.
      apply Z.mul_le_mono_nonneg; lia. }
  apply Z.leb_le in Hover. rewrite Hover.
  destruct (Z.ltb_spec n 0); [lia|reflexivity].
Qed.

Lemma of_int_out_of_range (n : Z) :
  ~ float_range n ->
  of_int n = Raise (OverflowError "int too large to convert to float").
Proof.
  unfold float_range. intros Hout. unfold of_int.
  destruct (Z.le_gt_cases 0 n) as [Hn|Hn].
  - rewrite Z.abs_eq in Hout by lia.
    now rewrite round_ratio_overflow by lia.
  - rewrite Z.abs_neq in Hout by lia.
    replace n with (- - n) by lia.
    rewrite round_ratio_opp, round_ratio_overflow by lia. reflexivity.
Qed.

(** X10: [format_size] returns a text exactly for the integers a float can
    hold, those of absolute value below [2^1024 - 2^970], whatever their
    sign; for every other integer it raises [OverflowError]. *)
Theorem format_size_domain (size_bytes : Z) :
  (float_range size_bytes -> exists s, format_size size_bytes = Ok s)
  /\ (~ float_range size_bytes ->
      format_size size_bytes
      = Raise (OverflowError "int too large to convert to float")).
Proof.
  split.
  - apply format_size_in_range.
  - intros Hout. pose proof (of_int_out_of_range _ Hout) as Hraise.
    destruct (format_size_cases size_bytes) as [(x & s & Hx & _)|[_ Hr]];
      [congruence|exact Hr].
Qed.

Lemma format_size_domain_witness :
  (exists s, format_size (- (10 ^ 300)) = Ok s)
  /\ format_size (2 ^ 1024)
     = Raise (OverflowError "int too large to convert to float").
Proof.
  destruct (format_size_domain (- (10 ^ 300))) as [Hin _].
  destruct (format_size_domain (2 ^ 1024)) as [_ Hout].
  split.
  - apply Hin. unfold float_range. vm_compute. reflexivity.
  - apply Hout. unfold float_range. vm_compute. discriminate.
Defined.

(** ** Byte counts printed in bytes *)

Lemma string_app_assoc (a b c : string) :
  ((a ++ b) ++ c)%string = (a ++ (b ++ c))%string.
Proof. induction a as [|ch a IH]; simpl; [reflexivity|now rewrite IH]. Qed.

Lemma round_ratio_int_exact (n : Z) :
  0 < n < 2 ^ 53 ->
  round_ratio n 1 = Fin (n * 2 ^ (52 - Z.log2 n)) (Z.log2 n - 52).
Proof.
  intros Hn.
  rewrite (round_ratio_dyadic n 0 n 1) by (change (2 ^ 0) with 1; lia).
  now rewrite Z.sub_0_r.
Qed.

Lemma hundredths_opp (m e : Z) : hundredths (- m) e = - hundredths m e.
Proof.
  unfold hundredths. destruct (Z.leb_spec 0 e) as [He|He].
  - ring.
  - rewrite <- round_half_even_opp by (apply pow2_pos; lia).
    f_equal. ring.
Qed.

Lemma fixed2_whole (n : Z) :
  fixed2 (100 * n) = (str_int n ++ ".00")%string.
Proof.
  unfold fixed2.
  replace (100 * n) with (n * 100) by ring.
  rewrite Z.div_mul, Z.mod_mul by lia. reflexivity.
Qed.

(** X11: a byte count below 1024, negative ones included down to [-2^53],
    is printed as it is, in bytes, with two zero decimals: negative byte
    counts are never scaled to a larger unit. *)
Theorem format_size_in_bytes (size_bytes : Z) :
  - 2 ^ 53 < size_bytes < 1024 ->
  format_size size_bytes = Ok (str_int size_bytes ++ ".00 B")%string.
Proof.
  intros Hn. unfold format_size. rewrite format_size_loop_cons.
  cbn [lt_1024 fmt_2f]. rewrite int_lt_1024.
  assert (Hlt : (size_bytes <? 1024) = true) by (apply Z.ltb_lt; lia).
  rewrite Hlt.
  destruct (Z.lt_trichotomy size_bytes 0) as [Hneg|[->|Hpos]].
  - assert (Hp : 0 < - size_bytes < 2 ^ 53) by lia.
    unfold of_int. replace size_bytes with (- - size_bytes) at 1 by lia.
    rewrite round_ratio_opp, round_ratio_int_exact by lia.
    cbn [fneg bind format_2f].
    set (L := Z.log2 (- size_bytes)).
    assert (Hl53 : L < 53) by (apply Z.log2_lt_pow2; lia).
    pose proof (pow2_pos (52 - L) ltac:(lia)) as Hpow.
    assert (Hs : (- (- size_bytes * 2 ^ (52 - L)) <? 0) = true)
      by (apply Z.ltb_lt; nia).
    rewrite Hs, hundredths_opp, Z.abs_opp.
    replace (L - 52) with (L - 52 - 10 * 0) by lia.
    unfold L. rewrite hundredths_exact by lia.
    change (1024 ^ 0) with 1. rewrite round_half_even_one, Z.abs_eq by lia.
    rewrite fixed2_whole. f_equal.
    unfold str_int.
    assert (Hs1 : (size_bytes <? 0) = true) by (apply Z.ltb_lt; lia).
    assert (Hs2 : (- size_bytes <? 0) = false) by (apply Z.ltb_ge; lia).
    rewrite Hs1, Hs2. rewrite !string_app_assoc. reflexivity.
  - vm_compute. reflexivity.
  - rewrite of_int_exact by lia. cbn [bind].
    replace (Z.log2 size_bytes - 52)
      with (Z.log2 size_bytes - 52 - 10 * 0) by lia.
    rewrite format_2f_exact by lia.
    change (1024 ^ 0) with 1. rewrite round_half_even_one, fixed2_whole.
    f_equal. rewrite !string_app_assoc. reflexivity.
Qed.

Lemma format_size_in_bytes_witness :
  format_size 1023 = Ok "1023.00 B"
  /\ format_size (-5368709120) = Ok "-5368709120.00 B".
Proof.
  split.
  - apply (format_size_in_bytes 1023). split; [reflexivity|reflexivity].
  - apply (format_size_in_bytes (-5368709120)).
    split; [reflexivity|reflexivity].
Defined.

(** ** The polling loop *)

(** One pass of the loop. *)
Lemma monitor_continuously_loop_step
      (fs : filesystem) (clock : wallclock)
      (time_sleep : Z -> nat -> sleep_outcome)
      (fuel sleeps : nat) (check_interval : Z) (st : state) :
  monitor_continuously_loop fs clock time_sleep (S fuel) sleeps
                            check_interval st
  = let checked :=
      monitor_once
        fs clock
        (print (nl ++ "[" ++ time_strftime clock (clock_reads st)
                ++ "] Checking folder sizes...") (tick st)) in
    match fst checked with
    | Raise e => Some (Propagated e, snd checked)
    | Ok _ =>
        match time_sleep check_interval sleeps with
        | Slept =>
            monitor_continuously_loop fs clock time_sleep fuel (S sleeps)
                                      check_interval (snd checked)
        | KeyboardInterrupt =>
            Some (StoppedByUser,
                  print (nl ++ "Monitoring stopped by user.") (snd checked))
        | SleepFailed => Some (SleepError, snd checked)
        end
    end.
Proof.
  cbn [monitor_continuously_loop]. cbv zeta.
  destruct (monitor_once fs clock _) as [[b|e] st2]; reflexivity.
Qed.

(** What the evaluation returns depends on the watch-list only. *)
Lemma check_folder_limits_same_config
      (fs : filesystem) (st1 st2 : state) :
  monitoring_config st1 = monitoring_config st2 ->
  fst (check_folder_limits fs st1) = fst (check_folder_limits fs st2).
Proof.
  intros Hcfg. now rewrite !check_folder_limits_result, Hcfg.
Qed.

Lemma last_snoc {A : Type} (l : list A) (a d : A) :
  last (l ++ [a])%list d = a.
Proof.
  induction l as [|b l IH]; [reflexivity|].
  simpl. destruct (l ++ [a])%list eqn:E; [|exact IH].
  now destruct l.
Qed.

Lemma monitor_continuously_loop_interrupted
      (fs : filesystem) (clock : wallclock)
      (time_sleep : Z -> nat -> sleep_outcome)
      (check_interval : Z) (vs : list Violation) (k : nat) :
  forall (s : nat) (st : state),
    (forall n, (n < k)%nat -> time_sleep check_interval (s + n)%nat = Slept) ->
    time_sleep check_interval (s + k)%nat = KeyboardInterrupt ->
    fst (check_folder_limits fs st) = Ok vs ->
    (forall fuel,
        (fuel <= k)%nat ->
        monitor_continuously_loop fs clock time_sleep fuel s
                                  check_interval st = None)
    /\ exists st',
        (forall fuel,
            (k < fuel)%nat ->
            monitor_continuously_loop fs clock time_sleep fuel s
                                      check_interval st
            = Some (StoppedByUser, st'))
        /\ monitoring_config st' = monitoring_config st
        /\ (exists new,
               alerts_triggered st' = (alerts_triggered st ++ new)%list
               /\ map violation new = List.concat (repeat vs (S k)))
        /\ last (stdout st') "" = nl ++ "Monitoring stopped by user.".
Proof.
  induction k as [|k IH]; intros s st Hslept Hint Heval.
  - set (st1 := print (nl ++ "[" ++ time_strftime clock (clock_reads st)
                       ++ "] Checking folder sizes...") (tick st)).
    assert (Heval1 : fst (check_folder_limits fs st1) = Ok vs).
    { rewrite <- Heval. now apply check_folder_limits_same_config. }
    destruct (monitor_once_alerts fs clock st1 vs Heval1)
      as (new & Hnew & Hmap & Hres).
    pose proof (monitor_once_config fs clock st1) as Hcfg.
    split.
    + intros fuel Hfuel. replace fuel with 0%nat by lia. reflexivity.
    + exists (print (nl ++ "Monitoring stopped by user.")
                    (snd (monitor_once fs clock st1))).
      split; [|split; [|split]].
      * intros [|fuel] Hfuel; [lia|].
        rewrite monitor_continuously_loop_step. cbv zeta. fold st1.
        rewrite Hres. replace (s + 0)%nat with s in Hint by lia.
        now rewrite Hint.
      * simpl. exact Hcfg.
      * exists new. simpl. rewrite app_nil_r. auto.
      * simpl. apply last_snoc.
  - set (st1 := print (nl ++ "[" ++ time_strftime clock (clock_reads st)
                       ++ "] Checking folder sizes...") (tick st)).
    assert (Heval1 : fst (check_folder_limits fs st1) = Ok vs).
    { rewrite <- Heval. now apply check_folder_limits_same_config. }
    destruct (monitor_once_alerts fs clock st1 vs Heval1)
      as (new1 & Hnew1 & Hmap1 & Hres).
    pose proof (monitor_once_config fs clock st1) as Hcfg.
    assert (Heval2 : fst (check_folder_limits
                            fs (snd (monitor_once fs clock st1))) = Ok vs).
    { rewrite <- Heval1. now apply check_folder_limits_same_config. }
    assert (Hfirst : time_sleep check_interval s = Slept).
    { replace s with (s + 0)%nat by lia. apply Hslept. lia. }
    destruct (IH (S s) (snd (monitor_once fs clock st1)))
      as (Hnone & st' & Hsome & Hcfg' & (new & Hnew & Hmap) & Hlast).
    { intros n Hn. replace (S s + n)%nat with (s + S n)%nat by lia.
      apply Hslept. lia. }
    { replace (S s + k)%nat with (s + S k)%nat by lia. exact Hint. }
    { exact Heval2. }
    split.
    + intros [|fuel] Hfuel; [reflexivity|].
      rewrite monitor_continuously_loop_step. cbv zeta. fold st1.
      rewrite Hres, Hfirst. apply Hnone. lia.
    + exists st'. split; [|split; [|split]].
      * intros [|fuel] Hfuel; [lia|].
        rewrite monitor_continuously_loop_step. cbv zeta. fold st1.
        rewrite Hres, Hfirst. apply Hsome. lia.
      * rewrite Hcfg', Hcfg. reflexivity.
      * exists (new1 ++ new)%list. rewrite Hnew, Hnew1, <- app_assoc.
        split; [reflexivity|].
        rewrite map_app, Hmap1, Hmap. reflexivity.
      * exact Hlast.
Qed.

(** X13: [monitor_continuously] runs until the operator interrupts a sleep.
    When the first [k] sleeps return, the next one is interrupted and the
    evaluation of the watch-list returns the violations [vs], the loop is
    still running after [k] passes and ends during pass [k + 1], returning
    normally: the interrupt is caught.  By then the history has grown by
    [k + 1] copies of [vs], in order, the watch-list is as it was, and the
    last line printed is the notice that monitoring was stopped. *)
Theorem monitor_continuously_until_interrupted
        (fs : filesystem) (clock : wallclock)
        (time_sleep : Z -> nat -> sleep_outcome)
        (check_interval : Z) (vs : list Violation) (k : nat) (st : state) :
  (forall n, (n < k)%nat -> time_sleep check_interval n = Slept) ->
  time_sleep check_interval k = KeyboardInterrupt ->
  fst (check_folder_limits fs st) = Ok vs ->
  (forall fuel,
      (fuel <= k)%nat ->
      monitor_continuously fs clock time_sleep fuel check_interval st = None)
  /\ exists st',
      (forall fuel,
          (k < fuel)%nat ->
          monitor_continuously fs clock time_sleep fuel check_interval st
          = Some (StoppedByUser, st'))
      /\ monitoring_config st' = monitoring_config st
      /\ (exists new,
             alerts_triggered st' = (alerts_triggered st ++ new)%list
             /\ map violation new = List.concat (repeat vs (S k)))
      /\ last (stdout st') "" = nl ++ "Monitoring stopped by user.".
Proof.
  intros Hslept Hint Heval. unfold monitor_continuously.
  set (st0 := print "Press Ctrl+C to stop monitoring" (print _ st)).
  assert (Heval0 : fst (check_folder_limits fs st0) = Ok vs).
  { rewrite <- Heval. now apply check_folder_limits_same_config. }
  destruct (monitor_continuously_loop_interrupted
              fs clock time_sleep check_interval vs k 0 st0)
    as (Hnone & st' & Hsome & Hcfg & Halerts & Hlast); auto.
  split; [exact Hnone|]. exists st'. auto.
Qed.

Lemma monitor_continuously_until_interrupted_witness :
  exists st',
    monitor_continuously demo_fs demo_clock demo_sleep 5 60
                         (init (Some [("/tmp/big", 1048576)]))
    = Some (StoppedByUser, st')
    /\ List.length (alerts_triggered st') = 3%nat.
Proof.
  destruct (fst (check_folder_limits
                   demo_fs (init (Some [("/tmp/big", 1048576)]))))
    as [vs|e] eqn:Heval; [|vm_compute in Heval; discriminate].
  destruct (monitor_continuously_until_interrupted
              demo_fs demo_clock demo_sleep 60 vs 2
              (init (Some [("/tmp/big", 1048576)])))
    as (_ & st' & Hsome & _ & (new & Hnew & Hmap) & _).
  - intros [|[|n]] Hn; [reflexivity|reflexivity|lia].
  - reflexivity.
  - exact Heval.
  - exists st'. split; [apply Hsome; lia|].
    rewrite Hnew. simpl.
    apply (f_equal (@List.length Violation)) in Hmap.
    rewrite length_map in Hmap. rewrite Hmap.
    vm_compute in Heval. inversion Heval. reflexivity.
Defined.

(** A check that raises, on a watch-list that is not empty. *)
Lemma monitor_once_raises
      (fs : filesystem) (clock : wallclock) (st : state) (e : exn) :
  monitoring_config st <> [] ->
  fst (check_folder_limits fs st) = Raise e ->
  fst (monitor_once fs clock st) = Raise e
  /\ alerts_triggered (snd (monitor_once fs clock st)) = alerts_triggered st.
Proof.
  intros Hne Heval. unfold monitor_once.
  destruct (monitoring_config st) as [|entry rest]; [congruence|].
  pose proof (check_folder_limits_frame fs st) as Hframe.
  destruct (check_folder_limits fs st) as [r st1].
  simpl in Heval, Hframe. subst r. simpl. tauto.
Qed.

(** X14: only the operator's interrupt is caught.  When the evaluation of a
    watch-list that is not empty raises, [monitor_continuously] ends in its
    first pass by raising that exception, whatever the sleeps would do; the
    watch-list and the alert history are as they were. *)
Theorem monitor_continuously_propagates
        (fs : filesystem) (clock : wallclock)
        (time_sleep : Z -> nat -> sleep_outcome)
        (check_interval : Z) (e : exn) (fuel : nat) (st : state) :
  monitoring_config st <> [] ->
  fst (check_folder_limits fs st) = Raise e ->
  exists st',
    monitor_continuously fs clock time_sleep (S fuel) check_interval st
    = Some (Propagated e, st')
    /\ monitoring_config st' = monitoring_config st
    /\ alerts_triggered st' = alerts_triggered st.
Proof.
  intros Hne Heval. unfold monitor_continuously.
  rewrite monitor_continuously_loop_step. cbv zeta.
  match goal with
  | |- context [monitor_once fs clock ?s] => set (st1 := s)
  end.
  assert (Heval1 : fst (check_folder_limits fs st1) = Raise e).
  { rewrite <- Heval. now apply check_folder_limits_same_config. }
  destruct (monitor_once_raises fs clock st1 e Hne Heval1)
    as (Hres & Halerts).
  rewrite Hres. eexists. split; [reflexivity|]. split.
  - now rewrite monitor_once_config.
  - rewrite Halerts. reflexivity.
Qed.

Lemma monitor_continuously_propagates_witness :
  exists st',
    monitor_continuously
      demo_fs demo_clock demo_sleep 1 60
      (init (Some [("/tmp/empty", - (10 ^ 400) * 1024 * 1024);
                   ("/tmp/big", 1048576)]))
    = Some (Propagated
              (OverflowError "int too large to convert to float"), st')
    /\ alerts_triggered st' = [].
Proof.
  destruct (monitor_continuously_propagates
              demo_fs demo_clock demo_sleep 60
              (OverflowError "int too large to convert to float") 0
              (init (Some [("/tmp/empty", - (10 ^ 400) * 1024 * 1024);
                           ("/tmp/big", 1048576)])))
    as (st' & Hrun & _ & Halerts).
  - discriminate.
  - vm_compute. reflexivity.
  - exists st'. split; [exact Hrun|exact Halerts].
Defined.

(** ** The interactive callers *)

(** A loop that only prints leaves the watch-list and the history alone. *)
Lemma fold_left_frame {A : Type} (g : state -> A -> state) :
  (forall st x,
      monitoring_config (g st x) = monitoring_config st
      /\ alerts_triggered (g st x) = alerts_triggered st) ->
  forall l st,
    monitoring_config (fold_left g l st) = monitoring_config st
    /\ alerts_triggered (fold_left g l st) = alerts_triggered st.
Proof.
  intros Hg l. induction l as [|x l IH]; intros st; simpl; [auto|].
  destruct (IH (g st x)) as (Hc & Ha). destruct (Hg st x) as (Hc' & Ha').
  split; congruence.
Qed.

(** Deleting the key at position [i] removes the entry at position [i]. *)
Lemma dict_del_nth (d : dict) :
  NoDup (map fst d) ->
  forall i,
    (i < List.length d)%nat ->
    dict_contains d (nth i (map fst d) "") = true
    /\ dict_del d (nth i (map fst d) "")
       = (firstn i d ++ skipn (S i) d)%list.
Proof.
  induction d as [|[k v] d IH]; intros Hnd i Hi; simpl in Hi; [lia|].
  simpl in Hnd. inversion Hnd as [|? ? Hnotin Hnd']; subst.
  destruct i as [|i].
  - unfold dict_contains. simpl. rewrite String.eqb_refl. auto.
  - destruct (IH Hnd' i ltac:(lia)) as (Hin & Hdel).
    assert (Hneq : String.eqb k (nth i (map fst d) "") = false).
    { apply String.eqb_neq. intros ->. apply Hnotin.
      apply nth_In. rewrite length_map. lia. }
    unfold dict_contains in *. cbn [map fst nth dict_get dict_del].
    rewrite Hneq. split; [exact Hin|].
    rewrite Hdel. reflexivity.
Qed.

(** X15: removing by number.  When the text typed is read as the integer
    [number] and the watch-list has no duplicate path,
    [remove_folder_interactive] removes exactly the entry listed under that
    number, the others keeping their order and limits, and reports success;
    a number outside the list changes nothing and, on a watch-list that is
    not empty, is answered by the invalid-number error: the text is then
    not tried as a path.  The alert history is untouched. *)
Theorem remove_folder_interactive_by_number
        (os_path_expanduser : string -> string)
        (int_of_str : string -> option Z)
        (choice : string) (number : Z) (st : state) :
  choice <> "" ->
  int_of_str choice = Some number ->
  NoDup (map fst (monitoring_config st)) ->
  let st' :=
    remove_folder_interactive os_path_expanduser int_of_str choice st in
  (1 <= number <= Z.of_nat (List.length (monitoring_config st)) ->
   monitoring_config st'
   = (firstn (Z.to_nat (number - 1)) (monitoring_config st)
      ++ skipn (Z.to_nat number) (monitoring_config st))%list
   /\ last (stdout st') "" = "✅ Folder removed successfully!")
  /\ (~ 1 <= number <= Z.of_nat (List.length (monitoring_config st)) ->
      monitoring_config st' = monitoring_config st
      /\ (monitoring_config st <> [] ->
          last (stdout st') "" = "Error: Invalid folder number."))
  /\ alerts_triggered st' = alerts_triggered st.
Proof.
  intros Hchoice Hint Hnd. cbv zeta. unfold remove_folder_interactive.
  cbv zeta.
  change (monitoring_config (print _ (print _ st)))
    with (monitoring_config st).
  destruct (monitoring_config st) as [|entry rest] eqn:Hcfg.
  - simpl. rewrite Hcfg. simpl. split; [lia|]. split; [|reflexivity].
    intros _. split; [reflexivity|congruence].
  - rewrite <- Hcfg in *.
    match goal with
    | |- context [fold_left ?g ?l ?s] =>
        assert (Hframe :
                  monitoring_config (fold_left g l s) = monitoring_config st
                  /\ alerts_triggered (fold_left g l s)
                     = alerts_triggered st)
          by (refine (fold_left_frame g _ l s);
              intros s0 [i p]; split; reflexivity);
        set (st3 := fold_left g l s) in *
    end.
    destruct Hframe as (Hc3 & Ha3).
    apply String.eqb_neq in Hchoice. rewrite Hchoice, Hint.
    rewrite Hc3, length_map.
    set (len := Z.of_nat (List.length (monitoring_config st))).
    destruct ((0 <=? number - 1) && (number - 1 <? len)) eqn:Hrange.
    + apply andb_prop in Hrange. destruct Hrange as (Hlo & Hhi).
      apply Z.leb_le in Hlo. apply Z.ltb_lt in Hhi.
      destruct (dict_del_nth (monitoring_config st) Hnd
                             (Z.to_nat (number - 1)))
        as (Hin & Hdel); [unfold len in Hhi; lia|].
      unfold remove_folder_from_monitor. rewrite Hc3, Hin.
      replace (S (Z.to_nat (number - 1))) with (Z.to_nat number) in Hdel
        by lia.
      split; [|split].
      * intros _. split; [exact Hdel|]. simpl. apply last_snoc.
      * intros Hout. exfalso. apply Hout. fold len. lia.
      * simpl. exact Ha3.
    + assert (Hout : ~ 1 <= number <= len).
      { intros (Hlo & Hhi).
        assert (Ht : (0 <=? number - 1) && (number - 1 <? len) = true).
        { apply andb_true_intro. split;
            [apply Z.leb_le|apply Z.ltb_lt]; lia. }
        congruence. }
      split; [|split].
      * intros Hin. contradiction.
      * intros _. split; [exact Hc3|]. intros _. simpl. apply last_snoc.
      * simpl. exact Ha3.
Qed.

Lemma remove_folder_interactive_by_number_witness :
  monitoring_config
    (remove_folder_interactive
       demo_expanduser demo_int_of_str "2"
       (init (Some [("/tmp/t", 5); ("/tmp/big", 6); ("/tmp/empty", 7)])))
  = [("/tmp/t", 5); ("/tmp/empty", 7)]
  /\ monitoring_config
       (remove_folder_interactive
          demo_expanduser demo_int_of_str "4"
          (init (Some [("/tmp/t", 5); ("/tmp/big", 6); ("/tmp/empty", 7)])))
     = [("/tmp/t", 5); ("/tmp/big", 6); ("/tmp/empty", 7)].
Proof.
  assert (Hnd : NoDup (map fst (monitoring_config
                                  (init (Some [("/tmp/t", 5); ("/tmp/big", 6);
                                               ("/tmp/empty", 7)]))))).
  { simpl. repeat constructor; simpl; intuition discriminate. }
  split.
  - destruct (remove_folder_interactive_by_number
                demo_expanduser demo_int_of_str "2" 2
                (init (Some [("/tmp/t", 5); ("/tmp/big", 6);
                             ("/tmp/empty", 7)])))
      as (Hin & _ & _);
      [discriminate|reflexivity|exact Hnd|].
    destruct Hin as (Hcfg & _); [simpl; lia|]. exact Hcfg.
  - destruct (remove_folder_interactive_by_number
                demo_expanduser demo_int_of_str "4" 4
                (init (Some [("/tmp/t", 5); ("/tmp/big", 6);
                             ("/tmp/empty", 7)])))
      as (_ & Hout & _);
      [discriminate|reflexivity|exact Hnd|].
    destruct Hout as (Hcfg & _); [simpl; lia|]. exact Hcfg.
Defined.

(** ** What the front end stores *)

Lemma dict_set_Forall (P : string * Z -> Prop) (d : dict) (k : string)
      (v : Z) :
  Forall P d -> P (k, v) -> Forall P (dict_set d k v).
Proof.
  intros Hd Hk. induction d as [|[k' v'] d IH]; simpl.
  - constructor; [exact Hk|constructor].
  - inversion Hd as [|? ? Hhead Htail]; subst.
    destruct (String.eqb_spec k' k) as [->|_].
    + constructor; assumption.
    + constructor; [assumption|now apply IH].
Qed.

Lemma dict_del_Forall (P : string * Z -> Prop) (d : dict) (k : string) :
  Forall P d -> Forall P (dict_del d k).
Proof.
  intros Hd. induction d as [|[k' v'] d IH]; simpl; [constructor|].
  inversion Hd as [|? ? Hhead Htail]; subst.
  destruct (String.eqb k' k); [assumption|].
  constructor; [assumption|now apply IH].
Qed.

(** The watch-list [add_folder_interactive] leaves: the old one, or the old
    one with the expanded path set to a positive number of megabytes. *)
Lemma add_folder_interactive_config
      (fs : filesystem) (os_path_expanduser : string -> string)
      (int_of_str : string -> option Z)
      (path_input limit_input : string) (st : state) :
  let st' := add_folder_interactive fs os_path_expanduser int_of_str
                                    path_input limit_input st in
  alerts_triggered st' = alerts_triggered st
  /\ (monitoring_config st' = monitoring_config st
      \/ exists mb,
          0 < mb
          /\ path_input <> ""
          /\ int_of_str limit_input = Some mb
          /\ os_path_exists fs (os_path_expanduser path_input) = true
          /\ os_path_isdir fs (os_path_expanduser path_input) = true
          /\ monitoring_config st'
             = dict_set (monitoring_config st)
                        (os_path_expanduser path_input)
                        (mb * 1024 * 1024)).
Proof.
  cbv zeta. unfold add_folder_interactive. cbv zeta.
  destruct (String.eqb_spec path_input "") as [Hp|Hp]; [simpl; auto|].
  destruct (String.eqb limit_input ""); [simpl; auto|].
  destruct (int_of_str limit_input) as [mb|]; [|simpl; auto].
  destruct (Z.leb_spec mb 0) as [Hle|Hpos]; [simpl; auto|].
  unfold add_folder_to_monitor.
  destruct (os_path_exists fs (os_path_expanduser path_input)) eqn:He;
    [|simpl; auto].
  destruct (os_path_isdir fs (os_path_expanduser path_input)) eqn:Hd;
    [|simpl; auto].
  simpl. split; [reflexivity|]. right. exists mb. auto 10.
Qed.

(** The watch-list [remove_folder_interactive] leaves: the old one, with
    one path deleted or none. *)
Lemma remove_folder_interactive_config
      (os_path_expanduser : string -> string)
      (int_of_str : string -> option Z) (choice : string) (st : state) :
  let st' :=
    remove_folder_interactive os_path_expanduser int_of_str choice st in
  alerts_triggered st' = alerts_triggered st
  /\ (monitoring_config st' = monitoring_config st
      \/ exists folder_path,
          dict_contains (monitoring_config st) folder_path = true
          /\ monitoring_config st'
             = dict_del (monitoring_config st) folder_path).
Proof.
  cbv zeta. unfold remove_folder_interactive. cbv zeta.
  change (monitoring_config (print _ (print _ st)))
    with (monitoring_config st).
  destruct (monitoring_config st) as [|entry rest] eqn:Hcfg.
  - simpl. rewrite Hcfg. auto.
  - rewrite <- Hcfg in *.
    match goal with
    | |- context [fold_left ?g ?l ?s] =>
        assert (Hframe :
                  monitoring_config (fold_left g l s) = monitoring_config st
                  /\ alerts_triggered (fold_left g l s)
                     = alerts_triggered st)
          by (refine (fold_left_frame g _ l s);
              intros s0 [i p]; split; reflexivity);
        set (st3 := fold_left g l s) in *
    end.
    destruct Hframe as (Hc3 & Ha3).
    assert (Hremove :
              forall p,
                let st' :=
                  (let (success, st4) := remove_folder_from_monitor p st3 in
                   if success
                   then print "✅ Folder removed successfully!" st4
                   else print "❌ Failed to remove folder." st4) in
                alerts_triggered st' = alerts_triggered st
                /\ (monitoring_config st' = monitoring_config st
                    \/ exists folder_path,
                        dict_contains (monitoring_config st) folder_path
                        = true
                        /\ monitoring_config st'
                           = dict_del (monitoring_config st) folder_path)).
    { intros p. cbv zeta. unfold remove_folder_from_monitor. rewrite Hc3.
      destruct (dict_contains (monitoring_config st) p) eqn:Hin; simpl.
      - split; [exact Ha3|]. right. exists p. auto.
      - split; [exact Ha3|]. left. exact Hc3. }
    destruct (String.eqb choice ""); [auto|].
    destruct (int_of_str choice) as [number|]; [|apply Hremove].
    destruct ((0 <=? number - 1)
              && (number - 1
                  <? Z.of_nat (List.length (map fst (monitoring_config st3)))));
      [apply Hremove|].
    simpl. auto.
Qed.

(** X16: the front end keeps every stored limit a positive whole number of
    megabytes.  When that holds of the watch-list, it holds again after
    [add_folder_interactive] and after [remove_folder_interactive], whatever
    is typed: a limit that is zero or negative never reaches the watch-list
    through the menu. *)
Theorem front_end_keeps_limits_positive
        (fs : filesystem) (os_path_expanduser : string -> string)
        (int_of_str : string -> option Z) (st : state) :
  limits_positive (monitoring_config st) ->
  (forall path_input limit_input,
      limits_positive
        (monitoring_config
           (add_folder_interactive fs os_path_expanduser int_of_str
                                   path_input limit_input st)))
  /\ (forall choice,
         limits_positive
           (monitoring_config
              (remove_folder_interactive os_path_expanduser int_of_str
                                         choice st))).
Proof.
  intros Hpos. split.
  - intros path_input limit_input.
    destruct (add_folder_interactive_config
                fs os_path_expanduser int_of_str path_input limit_input st)
      as (_ & [Hsame|(mb & Hmb & _ & _ & _ & _ & Hset)]).
    + now rewrite Hsame.
    + rewrite Hset. apply dict_set_Forall; [exact Hpos|].
      exists mb. auto.
  - intros choice.
    destruct (remove_folder_interactive_config
                os_path_expanduser int_of_str choice st)
      as (_ & [Hsame|(p & _ & Hdel)]).
    + now rewrite Hsame.
    + rewrite Hdel. now apply dict_del_Forall.
Qed.

Lemma front_end_keeps_limits_positive_witness :
  limits_positive
    (monitoring_config
       (add_folder_interactive demo_fs demo_expanduser demo_int_of_str
                               "/tmp/big" "5" (init None)))
  /\ limits_positive
       (monitoring_config
          (add_folder_interactive demo_fs demo_expanduser demo_int_of_str
                                  "/tmp/big" "-5" (init None))).
Proof.
  destruct (front_end_keeps_limits_positive
              demo_fs demo_expanduser demo_int_of_str (init None))
    as (Hadd & _); [constructor|].
  split; [apply (Hadd "/tmp/big" "5")|apply (Hadd "/tmp/big" "-5")].
Defined.

(** X17: what [add_folder_interactive] registers.  With a path and a limit
    typed, the limit read as a positive integer [mb], the folder registered
    is the path with the home directory expanded: when that is an existing
    directory its limit becomes [mb] megabytes in bytes and success is
    reported, and otherwise the watch-list is unchanged and failure is
    reported.  With an empty path, an empty limit or a limit that is not an
    integer the watch-list is unchanged.  The alert history is untouched. *)
Theorem add_folder_interactive_spec
        (fs : filesystem) (os_path_expanduser : string -> string)
        (int_of_str : string -> option Z)
        (path_input limit_input : string) (st : state) :
  let st' := add_folder_interactive fs os_path_expanduser int_of_str
                                    path_input limit_input st in
  let folder_path := os_path_expanduser path_input in
  (forall mb,
      path_input <> "" -> limit_input <> "" ->
      int_of_str limit_input = Some mb -> 0 < mb ->
      if os_path_exists fs folder_path && os_path_isdir fs folder_path
      then monitoring_config st'
           = dict_set (monitoring_config st) folder_path (mb * 1024 * 1024)
           /\ dict_get (monitoring_config st') folder_path
              = Some (mb * 1024 * 1024)
           /\ last (stdout st') "" = "✅ Folder added successfully!"
      else monitoring_config st' = monitoring_config st
           /\ last (stdout st') "" = "❌ Failed to add folder.")
  /\ (path_input = "" \/ limit_input = "" \/ int_of_str limit_input = None ->
      monitoring_config st' = monitoring_config st)
  /\ alerts_triggered st' = alerts_triggered st.
Proof.
  cbv zeta. split; [|split].
  - intros mb Hp Hl Hint Hpos. unfold add_folder_interactive. cbv zeta.
    apply String.eqb_neq in Hp. apply String.eqb_neq in Hl.
    rewrite Hp, Hl, Hint.
    destruct (Z.leb_spec mb 0) as [Hle|_]; [lia|].
    unfold add_folder_to_monitor.
    destruct (os_path_exists fs (os_path_expanduser path_input));
      [|simpl; split; [reflexivity|apply last_snoc]].
    destruct (os_path_isdir fs (os_path_expanduser path_input));
      [|simpl; split; [reflexivity|apply last_snoc]].
    simpl. split; [reflexivity|]. split; [apply dict_get_set_same|].
    apply last_snoc.
  - intros Hcase. unfold add_folder_interactive. cbv zeta.
    destruct (String.eqb_spec path_input "") as [_|Hp]; [reflexivity|].
    destruct (String.eqb_spec limit_input "") as [_|Hl]; [reflexivity|].
    destruct Hcase as [Hc|[Hc|Hc]]; [contradiction|contradiction|].
    rewrite Hc. reflexivity.
  - apply add_folder_interactive_config.
Qed.

Lemma add_folder_interactive_spec_witness :
  dict_get
    (monitoring_config
       (add_folder_interactive demo_fs demo_expanduser demo_int_of_str
                               "/tmp/big" "5" (init None)))
    "/tmp/big"
  = Some 5242880
  /\ monitoring_config
       (add_folder_interactive demo_fs demo_expanduser demo_int_of_str
                               "/tmp/big" "five" (init None))
     = [].
Proof.
  destruct (add_folder_interactive_spec
              demo_fs demo_expanduser demo_int_of_str
              "/tmp/big" "5" (init None))
    as (Hreg & _ & _).
  destruct (add_folder_interactive_spec
              demo_fs demo_expanduser demo_int_of_str
              "/tmp/big" "five" (init None))
    as (_ & Hbad & _).
  split.
  - specialize (Hreg 5).
    change (os_path_exists demo_fs (demo_expanduser "/tmp/big")
            && os_path_isdir demo_fs (demo_expanduser "/tmp/big"))
      with true in Hreg.
    cbv iota in Hreg.
    destruct Hreg as (_ & Hget & _);
      [discriminate|discriminate|reflexivity|reflexivity|exact Hget].
  - apply Hbad. right. right. reflexivity.
Defined.

(** ** Starting the polling loop from the menu *)

(** X18: [start_continuous_monitoring_interactive] does not start the loop
    on an empty watch-list, nor when the interval typed is not an integer or
    is an integer that is not positive: it returns at once, whatever the
    number of passes allowed, without reading the clock, and leaves the
    watch-list and the alert history as they were. *)
Theorem start_continuous_monitoring_validates
        (fs : filesystem) (clock : wallclock)
        (int_of_str : string -> option Z)
        (time_sleep : Z -> nat -> sleep_outcome)
        (fuel : nat) (interval_input : string) (st : state) :
  monitoring_config st = []
  \/ (interval_input <> ""
      /\ forall n, int_of_str interval_input = Some n -> n <= 0) ->
  exists st',
    start_continuous_monitoring_interactive
      fs clock int_of_str time_sleep fuel interval_input st
    = Some (NotStarted, st')
    /\ monitoring_config st' = monitoring_config st
    /\ alerts_triggered st' = alerts_triggered st
    /\ clock_reads st' = clock_reads st.
Proof.
  intros Hcase. unfold start_continuous_monitoring_interactive. cbv zeta.
  change (monitoring_config (print _ (print _ st)))
    with (monitoring_config st).
  destruct (monitoring_config st) as [|entry rest] eqn:Hcfg.
  - eexists. split; [reflexivity|]. simpl. auto.
  - destruct Hcase as [Hempty|(Hne & Hbad)]; [discriminate|].
    apply String.eqb_neq in Hne. rewrite Hne.
    destruct (int_of_str interval_input) as [n|].
    + specialize (Hbad n eq_refl).
      destruct (Z.leb_spec n 0) as [_|Hpos]; [|lia].
      eexists. split; [reflexivity|]. simpl. auto.
    + eexists. split; [reflexivity|]. simpl. auto.
Qed.

Lemma start_continuous_monitoring_validates_witness :
  (exists st',
      start_continuous_monitoring_interactive
        demo_fs demo_clock demo_int_of_str demo_sleep 100 "0"
        (init (Some [("/tmp/big", 1048576)]))
      = Some (NotStarted, st'))
  /\ (exists st',
         start_continuous_monitoring_interactive
           demo_fs demo_clock demo_int_of_str demo_sleep 100 "soon"
           (init (Some [("/tmp/big", 1048576)]))
         = Some (NotStarted, st'))
  /\ (exists st',
         start_continuous_monitoring_interactive
           demo_fs demo_clock demo_int_of_str demo_sleep 100 ""
           (init None)
         = Some (NotStarted, st')).
Proof.
  split; [|split].
  - destruct (start_continuous_monitoring_validates
                demo_fs demo_clock demo_int_of_str demo_sleep 100 "0"
                (init (Some [("/tmp/big", 1048576)])))
      as (st' & Hrun & _).
    + right. split; [discriminate|].
      intros n Hn. vm_compute in Hn. inversion Hn. lia.
    + exists st'. exact Hrun.
  - destruct (start_continuous_monitoring_validates
                demo_fs demo_clock demo_int_of_str demo_sleep 100 "soon"
                (init (Some [("/tmp/big", 1048576)])))
      as (st' & Hrun & _).
    + right. split; [discriminate|].
      intros n Hn. vm_compute in Hn. discriminate.
    + exists st'. exact Hrun.
  - destruct (start_continuous_monitoring_validates
                demo_fs demo_clock demo_int_of_str demo_sleep 100 ""
                (init None))
      as (st' & Hrun & _).
    + left. reflexivity.
    + exists st'. exact Hrun.
Defined.

(** X19: a monitoring session started from the menu.  On a watch-list that
    is not empty, with the interval left empty, which stands for 60
    seconds, or typed as a positive integer, the loop is started with that
    interval: when the first [k] sleeps of that length return, the next one
    is interrupted and the evaluation of the watch-list returns the
    violations [vs], the session ends by the operator's stop after [k + 1]
    checks, the history has grown by [k + 1] copies of [vs] and the
    watch-list is as it was. *)
Theorem start_continuous_monitoring_session
        (fs : filesystem) (clock : wallclock)
        (int_of_str : string -> option Z)
        (time_sleep : Z -> nat -> sleep_outcome)
        (interval_input : string) (interval : Z)
        (vs : list Violation) (k : nat) (st : state) :
  monitoring_config st <> [] ->
  (interval_input = "" /\ interval = 60)
  \/ (interval_input <> ""
      /\ int_of_str interval_input = Some interval /\ 0 < interval) ->
  (forall n, (n < k)%nat -> time_sleep interval n = Slept) ->
  time_sleep interval k = KeyboardInterrupt ->
  fst (check_folder_limits fs st) = Ok vs ->
  exists st',
    (forall fuel,
        (k < fuel)%nat ->
        start_continuous_monitoring_interactive
          fs clock int_of_str time_sleep fuel interval_input st
        = Some (Monitored StoppedByUser, st'))
    /\ monitoring_config st' = monitoring_config st
    /\ (exists new,
           alerts_triggered st' = (alerts_triggered st ++ new)%list
           /\ map violation new = List.concat (repeat vs (S k)))
    /\ last (stdout st') "" = nl ++ "Monitoring stopped by user.".
Proof.
  intros Hne Hinput Hslept Hint Heval.
  set (st0 :=
         print "Press Ctrl+C to stop monitoring"
               (print ("Starting continuous monitoring (checking every "
                       ++ str_int interval ++ " seconds)")
                      (print (nl ++ "🚀 Starting continuous monitoring...")
                             (print (str_repeat "-" 35)
                                    (print (nl
                                            ++ "⏰ Continuous Monitoring Setup")
                                           st))))).
  assert (Heval0 : fst (check_folder_limits fs st0) = Ok vs).
  { rewrite <- Heval. now apply check_folder_limits_same_config. }
  destruct (monitor_continuously_loop_interrupted
              fs clock time_sleep interval vs k 0 st0)
    as (_ & st' & Hsome & Hcfg & Halerts & Hlast); auto.
  exists st'. split; [|auto].
  intros fuel Hfuel. specialize (Hsome fuel Hfuel).
  unfold start_continuous_monitoring_interactive. cbv zeta.
  change (monitoring_config (print _ (print _ st)))
    with (monitoring_config st).
  destruct (monitoring_config st) as [|entry rest]; [congruence|].
  destruct Hinput as [(-> & ->)|(Hi & Hparse & Hpos)].
  - cbn [String.eqb]. unfold monitor_continuously. fold st0.
    now rewrite Hsome.
  - apply String.eqb_neq in Hi. rewrite Hi, Hparse.
    destruct (Z.leb_spec interval 0) as [Hle|_]; [lia|].
    unfold monitor_continuously. fold st0. now rewrite Hsome.
Qed.

Lemma start_continuous_monitoring_session_witness :
  exists st',
    start_continuous_monitoring_interactive
      demo_fs demo_clock demo_int_of_str demo_sleep 10 ""
      (init (Some [("/tmp/big", 1048576)]))
    = Some (Monitored StoppedByUser, st')
    /\ List.length (alerts_triggered st') = 3%nat.
Proof.
  destruct (fst (check_folder_limits
                   demo_fs (init (Some [("/tmp/big", 1048576)]))))
    as [vs|e] eqn:Heval; [|vm_compute in Heval; discriminate].
  destruct (start_continuous_monitoring_session
              demo_fs demo_clock demo_int_of_str demo_sleep "" 60 vs 2
              (init (Some [("/tmp/big", 1048576)])))
    as (st' & Hsome & _ & (new & Hnew & Hmap) & _).
  - discriminate.
  - left. split; reflexivity.
  - intros [|[|n]] Hn; [reflexivity|reflexivity|lia].
  - reflexivity.
  - exact Heval.
  - exists st'. split; [apply Hsome; lia|].
    rewrite Hnew. simpl.
    apply (f_equal (@List.length Violation)) in Hmap.
    rewrite length_map in Hmap. rewrite Hmap.
    vm_compute in Heval. inversion Heval. reflexivity.
Defined.

(** ** A single check from the menu *)

Lemma last_app_nonempty {A : Type} (l l' : list A) (d : A) :
  l' <> [] -> last (l ++ l')%list d = last l' d.
Proof.
  intros Hne. induction l as [|a l IH]; [reflexivity|].
  simpl. destruct (l ++ l')%list eqn:E; [|exact IH].
  apply app_eq_nil in E. destruct E as (_ & E). contradiction.
Qed.

(** The last line of a check that found violations is the last alert. *)
Lemma monitor_once_last_line (fs : filesystem) (clock : wallclock)
      (st : state) (vs : list Violation) :
  fst (check_folder_limits fs st) = Ok vs ->
  vs <> [] ->
  exists new,
    alerts_triggered (snd (monitor_once fs clock st))
    = (alerts_triggered st ++ new)%list
    /\ map violation new = vs
    /\ last (stdout (snd (monitor_once fs clock st))) ""
       = last (map message new) "".
Proof.
  intros Heval Hne. unfold monitor_once.
  destruct (monitoring_config st) as [|entry rest] eqn:Hcfg.
  - rewrite check_folder_limits_result, Hcfg in Heval. simpl in Heval.
    inversion Heval. congruence.
  - pose proof (check_folder_limits_frame fs st) as Hframe.
    destruct (check_folder_limits fs st) as [r st1].
    simpl in Heval, Hframe. subst r. destruct Hframe as (_ & Halerts & _).
    destruct vs as [|v vs]; [congruence|].
    cbv beta iota. cbn [snd].
    match goal with
    | |- context [fold_left ?f ?l ?s] =>
        destruct (trigger_alerts_printed clock l s)
          as (new & Hnew & Hmap & Hprinted)
    end.
    exists new. rewrite Hnew, Hprinted. simpl alerts_triggered.
    rewrite Halerts. split; [reflexivity|]. split; [exact Hmap|].
    apply last_app_nonempty. destruct new; [discriminate|discriminate].
Qed.

(** X20: what [check_once_interactive] reports.  When the evaluation of the
    watch-list returns the violations [vs], the call returns, records one
    alert per violation, in order, and leaves the watch-list as it was.
    When there is no violation, which includes the empty watch-list, the
    last line printed is the one saying that all folders are within their
    limits; when there is one, that line is not added: the last line
    printed is the message of the last alert recorded. *)
Theorem check_once_interactive_report
        (fs : filesystem) (clock : wallclock) (st : state)
        (vs : list Violation) :
  fst (check_folder_limits fs st) = Ok vs ->
  let r := check_once_interactive fs clock st in
  fst r = Ok tt
  /\ monitoring_config (snd r) = monitoring_config st
  /\ exists new,
      alerts_triggered (snd r) = (alerts_triggered st ++ new)%list
      /\ map violation new = vs
      /\ (vs = [] ->
          last (stdout (snd r)) ""
          = "✅ All folders are within their limits!")
      /\ (vs <> [] ->
          last (stdout (snd r)) "" = last (map message new) "").
Proof.
  intros Heval. cbv zeta. unfold check_once_interactive. cbv zeta.
  set (st1 := print (str_repeat "-" 30) (print _ st)).
  assert (Heval1 : fst (check_folder_limits fs st1) = Ok vs).
  { rewrite <- Heval. now apply check_folder_limits_same_config. }
  pose proof (monitor_once_config fs clock st1) as Hcfg.
  destruct (monitor_once_alerts fs clock st1 vs Heval1)
    as (new & Hnew & Hmap & Hres).
  destruct vs as [|v vs].
  - destruct (monitor_once fs clock st1) as [r st2].
    simpl in Hres, Hcfg, Hnew. subst r. simpl.
    split; [reflexivity|]. split; [exact Hcfg|].
    exists new. split; [exact Hnew|]. split; [exact Hmap|].
    split; [intros _; apply last_snoc|congruence].
  - destruct (monitor_once_last_line fs clock st1 (v :: vs) Heval1)
      as (new' & Hnew' & Hmap' & Hlast); [discriminate|].
    assert (Hsame : new' = new).
    { rewrite Hnew in Hnew'. now apply app_inv_head in Hnew'. }
    subst new'.
    destruct (monitor_once fs clock st1) as [r st2].
    simpl in Hres, Hcfg, Hnew, Hlast. subst r. simpl.
    split; [reflexivity|]. split; [exact Hcfg|].
    exists new. split; [exact Hnew|]. split; [exact Hmap|].
    split; [discriminate|intros _; exact Hlast].
Qed.

Lemma check_once_interactive_report_witness :
  last (stdout (snd (check_once_interactive demo_fs demo_clock (init None))))
       ""
  = "✅ All folders are within their limits!"
  /\ List.length
       (alerts_triggered
          (snd (check_once_interactive
                  demo_fs demo_clock
                  (init (Some [("/tmp/big", 1048576)])))))
     = 1%nat.
Proof.
  split.
  - destruct (check_once_interactive_report
                demo_fs demo_clock (init None) [])
      as (_ & _ & new & _ & _ & Hclear & _); [reflexivity|].
    apply Hclear. reflexivity.
  - destruct (fst (check_folder_limits
                     demo_fs (init (Some [("/tmp/big", 1048576)]))))
      as [vs|e] eqn:Heval; [|vm_compute in Heval; discriminate].
    destruct (check_once_interactive_report
                demo_fs demo_clock
                (init (Some [("/tmp/big", 1048576)])) vs Heval)
      as (_ & _ & new & Hnew & Hmap & _).
    rewrite Hnew. simpl.
    apply (f_equal (@List.length Violation)) in Hmap.
    rewrite length_map in Hmap. rewrite Hmap.
    vm_compute in Heval. inversion Heval. reflexivity.
Defined.

(** ** Limits that are not positive *)

Lemma over_limit_entries_In (fs : filesystem) (config : dict)
      (p : string) (cur l : Z) :
  In (p, cur, l) (over_limit_entries fs config)
  <-> In (p, l) config /\ get_folder_size fs p = Ok cur /\ l < cur.
Proof.
  unfold over_limit_entries. rewrite in_flat_map. split.
  - intros ([p' l'] & Hin & Hentry).
    destruct (get_folder_size fs p') as [c|e] eqn:Hsize; [|contradiction].
    destruct (Z.gtb_spec c l') as [Hgt|_]; [|contradiction].
    destruct Hentry as [Heq|[]]. inversion Heq; subst p' c l'.
    split; [exact Hin|]. split; [exact Hsize|lia].
  - intros (Hin & Hsize & Hlt). exists (p, l). split; [exact Hin|].
    rewrite Hsize.
    destruct (Z.gtb_spec cur l) as [_|Hle]; [now left|lia].
Qed.

(** X21: the engine takes a limit that is not positive as it is.  In an
    evaluation that returns, a measurable folder whose stored limit is
    negative is reported as a violation whatever it holds, and one whose
    limit is zero is reported exactly when it holds at least one byte. *)
Theorem nonpositive_limits_flag_folders
        (fs : filesystem) (st : state) (vs : list Violation)
        (p : string) (l cur : Z) :
  fst (check_folder_limits fs st) = Ok vs ->
  In (p, l) (monitoring_config st) ->
  get_folder_size fs p = Ok cur ->
  l <= 0 ->
  (exists v,
      In v vs
      /\ folder_path v = p /\ current_size v = cur /\ size_limit v = l)
  <-> (l < 0 \/ 0 < cur).
Proof.
  intros Heval Hin Hsize Hl.
  rewrite check_folder_limits_result in Heval.
  pose proof (traverse_make_violation_keys _ _ Heval) as Hkeys.
  pose proof (get_folder_size_nonneg fs p cur Hsize) as Hnonneg.
  split.
  - intros (v & Hv & Hp & Hc & Hlim).
    assert (Hentry : In (p, cur, l)
                        (over_limit_entries fs (monitoring_config st))).
    { rewrite <- Hkeys. apply in_map_iff. exists v.
      split; [congruence|exact Hv]. }
    apply over_limit_entries_In in Hentry. lia.
  - intros Hcase.
    assert (Hentry : In (p, cur, l)
                        (over_limit_entries fs (monitoring_config st))).
    { apply over_limit_entries_In. split; [exact Hin|].
      split; [exact Hsize|lia]. }
    rewrite <- Hkeys in Hentry. apply in_map_iff in Hentry.
    destruct Hentry as (v & Hkey & Hv). inversion Hkey.
    exists v. auto.
Qed.

Lemma nonpositive_limits_flag_folders_witness :
  exists vs,
    fst (check_folder_limits
           demo_fs (init (Some [("/tmp/empty", -1048576); ("/tmp/t", 0)])))
    = Ok vs
    /\ (exists v, In v vs /\ folder_path v = "/tmp/empty"
                  /\ current_size v = 0 /\ size_limit v = -1048576)
    /\ (exists v, In v vs /\ folder_path v = "/tmp/t"
                  /\ current_size v = 3072 /\ size_limit v = 0).
Proof.
  destruct (fst (check_folder_limits
                   demo_fs
                   (init (Some [("/tmp/empty", -1048576); ("/tmp/t", 0)]))))
    as [vs|e] eqn:Heval; [|vm_compute in Heval; discriminate].
  exists vs. split; [reflexivity|]. split.
  - apply (nonpositive_limits_flag_folders
             demo_fs
             (init (Some [("/tmp/empty", -1048576); ("/tmp/t", 0)]))
             vs "/tmp/empty" (-1048576) 0 Heval).
    + simpl. auto.
    + vm_compute. reflexivity.
    + lia.
    + left. lia.
  - apply (nonpositive_limits_flag_folders
             demo_fs
             (init (Some [("/tmp/empty", -1048576); ("/tmp/t", 0)]))
             vs "/tmp/t" 0 3072 Heval).
    + simpl. auto.
    + vm_compute. reflexivity.
    + lia.
    + right. lia.
Defined.
